(** * torchdata.nodes.io: FileLister, FileReader, TextStreamingDecoder

    A shallow embedding of the three pull-based nodes of
    [torchdata/nodes/io] and of the [MockSourceNode] used by their tests.
    Python objects are records, mutation is explicit state passing
    (every method returns the node after the call), exceptions are a
    [result] value, and the external collaborators (fsspec, smart_open)
    are parameters of the development. *)

From Stdlib Require Import String Ascii ZArith Lia.
From stdpp Require Import base option list strings gmap sorting.

Local Open Scope string_scope.

(** ** Python values, exceptions, items *)

(** Exceptions.  [StopIteration] is the end-of-sequence signal of the
    iterator protocol; every other exception raised by a collaborator is
    an [Exception] carrying its message. *)
Inductive exn : Type :=
  | StopIteration (msg : string)
  | Exception (msg : string).

Inductive result (A : Type) : Type :=
  | Ok (a : A)
  | Raise (e : exn).
Arguments Ok {A} a.
Arguments Raise {A} e.

#[global] Instance result_ret : MRet result := λ A a, Ok a.
#[global] Instance result_bind : MBind result := λ A B f m,
  match m with Ok a => f a | Raise e => Raise e end.

(** [try: body except Exception as e: handler(e)] *)
Definition try_except {A} (body : result A) (handler : exn → result A)
    : result A :=
  match body with Ok a => Ok a | Raise e => handler e end.

(** [for x in xs: acc = body(x, acc)] where the body may raise. *)
Fixpoint for_each {A B} (body : A → B → result B) (xs : list A) (acc : B)
    : result B :=
  match xs with
  | [] => Ok acc
  | x :: xs' => acc' ← body x acc; for_each body xs' acc'
  end.

(** Values stored in a metadata dictionary ([Dict[str, Any]]). *)
Inductive pyval : Type :=
  | VNone
  | VStr (s : string)
  | VInt (z : Z).

(** A metadata dictionary.  Python's [a.update(b)] on a fresh dictionary
    [a] is [b ∪ a]: stdpp's union keeps the left operand's bindings. *)
Abbreviation metadata := (gmap string pyval).

Definition dict_update (a b : metadata) : metadata := b ∪ a.

(** What a node yields: either a bare string, or a dictionary with the
    key ["data"] and, optionally, the key ["metadata"]. *)
Inductive item : Type :=
  | Str (s : string)
  | Dict (data : string) (meta : option metadata).

Definition item_data (it : item) : string :=
  match it with Str s => s | Dict d _ => d end.

Definition item_metadata (it : item) : metadata :=
  match it with Dict _ (Some m) => m | _ => ∅ end.

(** ** The node protocol

    [BaseNode] fixes [reset], [next] and [get_state]; [state_dict] is
    [get_state] on an initialised node.  [super().reset] only records
    that the node is initialised, so it has no counterpart here: every
    run below starts with an explicit [reset]. *)
Class BaseNode (Node Ckpt : Type) : Type := {
  reset : Node → option Ckpt → Node;
  next : Node → result item * Node;
  get_state : Node → Ckpt;
}.

(** [run n k]: the node after [k] calls of [next]. *)
Fixpoint run {Node Ckpt} `{!BaseNode Node Ckpt} (n : Node) (k : nat)
    : Node :=
  match k with
  | 0 => n
  | S k' => run (next n).2 k'
  end.

(** The node reached from [fresh] by a full reset and [k] calls. *)
Definition fresh_run {Node Ckpt} `{!BaseNode Node Ckpt} (fresh : Node)
    (k : nat) : Node :=
  run (reset fresh None) k.

(** A finite upstream: [yields n l] when pulling from [n] gives the items
    of [l] in order and then the end-of-sequence signal. *)
Inductive yields {Node Ckpt} `{!BaseNode Node Ckpt}
    : Node → list item → Prop :=
  | yields_stop n msg n' :
      next n = (Raise (StopIteration msg), n') →
      yields n []
  | yields_item n it n' l :
      next n = (Ok it, n') →
      yields n' l →
      yields n (it :: l).

(** A source is resumable when a fresh instance reset from the
    checkpoint of a run is the node that run reached. *)
Definition resumable {Node Ckpt} `{!BaseNode Node Ckpt} (fresh : Node)
    : Prop :=
  ∀ k, reset fresh (Some (get_state (fresh_run fresh k)))
       = fresh_run fresh k.

(** ** MockSourceNode (test/nodes/io) *)

Module MockSourceNode.

Record t : Type := mk {
  file_paths : list string;
  metadata_ : metadata;
  _current_idx : nat;
}.

(** The checkpoint [{"idx": n}]; the key is read with [.get(_, 0)]. *)
Record state : Type := mk_state { idx : option nat }.

Definition init (file_paths : list string) (md : metadata) : t :=
  mk file_paths md 0.

Definition reset (n : t) (initial_state : option state) : t :=
  match initial_state with
  | Some st => mk (file_paths n) (metadata_ n) (default 0 (idx st))
  | None => mk (file_paths n) (metadata_ n) 0
  end.

Definition next (n : t) : result item * t :=
  match file_paths n !! _current_idx n with
  | None => (Raise (StopIteration "No more files"), n)
  | Some path =>
      (Ok (Dict path (Some (metadata_ n))),
       mk (file_paths n) (metadata_ n) (S (_current_idx n)))
  end.

Definition get_state (n : t) : state := mk_state (Some (_current_idx n)).

End MockSourceNode.

#[global] Instance MockSourceNode_node :
  BaseNode MockSourceNode.t MockSourceNode.state := {
  reset := MockSourceNode.reset;
  next := MockSourceNode.next;
  get_state := MockSourceNode.get_state;
}.

(** ** smart_open: the universal-open collaborator

    An opened resource is a character stream: the characters that can
    still be delivered, and how the stream ends once they are consumed,
    either cleanly or with an input/output error. *)

Inductive stream_end : Type :=
  | EOF
  | IOError (e : exn).

Record handle : Type := mk_handle {
  h_data : string;
  h_end : stream_end;
}.

(** [open(uri, mode, encoding=..., transport_params=...)] *)
Definition opener : Type :=
  string → string → option string → metadata → result handle.

Definition nl : ascii := "010"%char.

Definition is_nl (c : ascii) : bool := Ascii.eqb c nl.

Fixpoint has_newline (s : string) : bool :=
  match s with
  | EmptyString => false
  | String c s' => is_nl c || has_newline s'
  end.

(** Split after the first newline: the line with its terminator, and
    the rest. *)
Fixpoint readline_str (s : string) : string * string :=
  match s with
  | EmptyString => (EmptyString, EmptyString)
  | String c s' =>
      if is_nl c then (String c EmptyString, s')
      else let '(l, r) := readline_str s' in (String c l, r)
  end.

(** [f.readline()]: the next line including its newline; the rest of the
    data when no newline is left and the stream ends cleanly (the empty
    string at end of file); the stream's error when it breaks before the
    line is complete. *)
Definition readline (h : handle) : result string * handle :=
  if has_newline (h_data h) then
    let '(l, r) := readline_str (h_data h) in (Ok l, mk_handle r (h_end h))
  else
    match h_end h with
    | EOF => (Ok (h_data h), mk_handle EmptyString EOF)
    | IOError e => (Raise e, h)
    end.

(** [f.read()]: the whole content, or the stream's error. *)
Definition read (h : handle) : result string :=
  match h_end h with
  | EOF => Ok (h_data h)
  | IOError e => Raise e
  end.

(** [next(f)] on a file object: [readline], with end of file signalled
    by [StopIteration]. *)
Definition handle_next (h : handle) : result string * handle :=
  match readline h with
  | (Ok EmptyString, h') => (Raise (StopIteration ""), h')
  | r => r
  end.

(** [line.rstrip("\n")]: drop every trailing newline character. *)
Fixpoint rstrip_nl (s : string) : string :=
  match s with
  | EmptyString => EmptyString
  | String c s' =>
      match rstrip_nl s' with
      | EmptyString => if is_nl c then EmptyString else String c EmptyString
      | r => String c r
      end
  end.

(** The part of a text before its first newline. *)
Fixpoint line_body (s : string) : string :=
  match s with
  | EmptyString => EmptyString
  | String c s' => if is_nl c then EmptyString else String c (line_body s')
  end.

(** [c in s] for a one-character string [c]. *)
Fixpoint str_contains (c : ascii) (s : string) : bool :=
  match s with
  | EmptyString => false
  | String c' s' => Ascii.eqb c c' || str_contains c s'
  end.

(** Whether the opened stream delivers [bytes] rather than [str]:
    smart_open opens in text mode as soon as an encoding is given (it
    drops the [b] of the mode), so only a mode with [b] and no
    encoding yields a binary stream. *)
Definition binary_stream (mode : string) (encoding : option string)
    : bool :=
  str_contains "b" mode && bool_decide (encoding = None).

(** The lines of a text, each with its terminator, as successive
    [readline] calls on a cleanly ending stream return them. *)
Fixpoint text_lines (s : string) : list string :=
  match s with
  | EmptyString => []
  | String c s' =>
      if is_nl c then String c EmptyString :: text_lines s'
      else match text_lines s' with
           | [] => [String c EmptyString]
           | l :: ls => String c l :: ls
           end
  end.

(** The lines a handle still delivers: a stream that breaks loses its
    unterminated last line. *)
Fixpoint complete_lines (s : string) : list string :=
  match s with
  | EmptyString => []
  | String c s' =>
      if is_nl c then String c EmptyString :: complete_lines s'
      else if has_newline s' then
             match complete_lines s' with
             | [] => []
             | l :: ls => String c l :: ls
             end
           else []
  end.

Definition handle_lines (h : handle) : list string :=
  match h_end h with
  | EOF => text_lines (h_data h)
  | IOError _ => complete_lines (h_data h)
  end.

(** ** FileReader (torchdata/nodes/io/file_read.py) *)

Module FileReader.
Section FileReader.

Context {Node Ckpt : Type} `{!BaseNode Node Ckpt}.
Variable smart_open : opener.

Record t : Type := mk {
  source : Node;
  mode : string;
  encoding : option string;
  transport_params : metadata;
}.

(** The checkpoint [{"source": ...}], read with [.get("source")]. *)
Record state : Type := mk_state { st_source : option Ckpt }.

Definition init (source_node : Node) (mode : string)
    (encoding : option string) (transport_params : metadata) : t :=
  mk source_node mode encoding transport_params.

Definition set_source (r : t) (s : Node) : t :=
  mk s (mode r) (encoding r) (transport_params r).

Definition reset (r : t) (initial_state : option state) : t :=
  match initial_state with
  | Some st => set_source r (reset (source r) (st_source st))
  | None => set_source r (reset (source r) None)
  end.

(** The body of the [with open(...) as f: content = f.read()] block. *)
Definition read_file (r : t) (file_path : string) : result string :=
  match smart_open file_path (mode r)
          (if str_contains "b"%char (mode r) then None else encoding r)
          (transport_params r) with
  | Ok f => read f
  | Raise e => Raise e
  end.

Definition next (r : t) : result item * t :=
  match next (source r) with
  | (Raise e, s') => (Raise e, set_source r s')
  | (Ok file_path_item, s') =>
      match file_path_item with
      | Str _ =>
          (Raise (Exception "string indices must be integers"),
           set_source r s')
      | Dict file_path meta =>
          let source_metadata := default ∅ meta in
          match read_file r file_path with
          | Ok content =>
              let metadata := {[ "file_path" := VStr file_path ]} in
              let metadata :=
                if decide (source_metadata = ∅) then metadata
                else dict_update metadata source_metadata in
              (Ok (Dict content (Some metadata)), set_source r s')
          | Raise e =>
              (* logger.error(...); raise *)
              (Raise e, set_source r s')
          end
      end
  end.

Definition get_state (r : t) : state :=
  mk_state (Some (get_state (source r))).

End FileReader.
End FileReader.

Arguments FileReader.t : clear implicits.
Arguments FileReader.state : clear implicits.

(** [FileReader] as a node, for a given [open]. *)
Definition FileReader_node {Node Ckpt} `{!BaseNode Node Ckpt}
    (smart_open : opener) :
  BaseNode (FileReader.t Node) (FileReader.state Ckpt) := {|
  reset := FileReader.reset;
  next := FileReader.next smart_open;
  get_state := FileReader.get_state;
|}.

(** ** FileLister (torchdata/nodes/io/file_list.py) *)

(** The fsspec filesystem object: [glob] and [isfile] may raise. *)
Record filesystem : Type := mk_filesystem {
  glob : string → result (list string);
  isfile : string → result bool;
}.

(** Lexicographic order on strings, as Python compares [str]. *)
Definition str_le (s1 s2 : string) : Prop := String.leb s1 s2 = true.

#[global] Instance str_le_dec s1 s2 : Decision (str_le s1 s2).
Proof. unfold str_le. apply _. Defined.

Fixpoint ends_with (c : ascii) (s : string) : bool :=
  match s with
  | EmptyString => false
  | String c' EmptyString => Ascii.eqb c' c
  | String _ s' => ends_with c s'
  end.

(** [os.path.join(a, b)] for two components (posixpath). *)
Definition path_join (a b : string) : string :=
  match b with
  | String "/" _ => b
  | _ =>
      match a with
      | EmptyString => b
      | _ => if ends_with "/" a then a ++ b else a ++ "/" ++ b
      end
  end.

Module FileLister.
Section FileLister.

(** [fsspec.core.split_protocol] (first component) and
    [fsspec.filesystem]. *)
Variable split_protocol : string → option string.
Variable fsspec_filesystem : string → metadata → filesystem.

Record t : Type := mk {
  uri_base : string;
  patterns : list string;
  fs_options : metadata;
  protocol : string;
  fs : filesystem;
  _file_paths : option (list string);
  _current_idx : nat;
}.

(** The checkpoint [{"current_idx": n}]. *)
Record state : Type := mk_state { current_idx : option nat }.

Definition init (uri_base : string) (patterns : list string)
    (fs_options : metadata) : t :=
  let protocol := default "file" (split_protocol uri_base) in
  mk uri_base
     (match patterns with [] => ["*"] | _ => patterns end)
     fs_options
     protocol
     (fsspec_filesystem protocol fs_options)
     None 0.

(** [[match for match in matches if self.fs.isfile(match)]] *)
Fixpoint filter_isfile (fs : filesystem) (matches : list string)
    : result (list string) :=
  match matches with
  | [] => Ok []
  | m :: ms =>
      b ← isfile fs m;
      rest ← filter_isfile fs ms;
      Ok (if b : bool then m :: rest else rest)
  end.

(** The body of the inner [try] for one pattern. *)
Definition glob_pattern (l : t) (pattern : string)
    : result (list string) :=
  matches ← glob (fs l) (path_join (uri_base l) pattern);
  if bool_decide (pattern = "**/*") || bool_decide (pattern = "*")
  then filter_isfile (fs l) matches
  else Ok matches.

(** One iteration of the loop over the patterns: the inner [try] with
    its [except Exception] (which only logs). *)
Definition add_pattern (l : t) (pattern : string) (paths : gset string)
    : result (gset string) :=
  try_except
    (matches ← glob_pattern l pattern;
     Ok (paths ∪ list_to_set matches))
    (λ e, Ok paths).

(** [sorted(self._file_paths)] *)
Definition sorted (paths : gset string) : list string :=
  merge_sort str_le (elements paths).

Definition qualify (protocol path : string) : string :=
  protocol ++ "://" ++ path.

(** The outer [try] with its [except Exception]. *)
Definition list_files (l : t) : result (list string) :=
  try_except
    (paths ← for_each (add_pattern l) (patterns l) ∅;
     let file_paths := sorted paths in
     Ok (if bool_decide (protocol l = "file") then file_paths
         else qualify (protocol l) <$> file_paths))
    (λ e, Ok []).

Definition set_cursor (l : t) (file_paths : option (list string))
    (idx : nat) : t :=
  mk (uri_base l) (patterns l) (fs_options l) (protocol l) (fs l)
     file_paths idx.

(** [reset] with its exceptions explicit. *)
Definition reset_result (l : t) (initial_state : option state)
    : result t :=
  file_paths ← list_files l;
  Ok (set_cursor l (Some file_paths)
        (match initial_state with
         | Some (mk_state (Some idx)) => idx
         | _ => 0
         end)).

Definition reset (l : t) (initial_state : option state) : t :=
  match reset_result l initial_state with
  | Ok l' => l'
  | Raise _ => l
  end.

Definition next (l : t) : result item * t :=
  match _file_paths l with
  | None | Some [] => (Raise (StopIteration "No matching files found"), l)
  | Some file_paths =>
      match file_paths !! _current_idx l with
      | None => (Raise (StopIteration "No more files"), l)
      | Some path =>
          let metadata : metadata :=
            {[ "fs_protocol" := VStr (protocol l);
               "source" := VStr (protocol l) ]} in
          (Ok (Dict path (Some metadata)),
           set_cursor l (_file_paths l) (S (_current_idx l)))
      end
  end.

Definition get_state (l : t) : state :=
  mk_state (Some (_current_idx l)).

(** *** What an enumeration is expected to list *)

(** The matches one pattern contributes: none when its enumeration
    fails. *)
Definition pattern_matches (l : t) (pattern : string) : gset string :=
  match glob_pattern l pattern with
  | Ok matches => list_to_set matches
  | Raise _ => ∅
  end.

(** The union of the matches of all patterns. *)
Definition matched (l : t) (pats : list string) : gset string :=
  ⋃ (pattern_matches l <$> pats).

(** Two [glob] results for the same snapshot: the same set of paths,
    in any order and multiplicity, or a failure on both sides. *)
Definition same_matches (r1 r2 : result (list string)) : Prop :=
  match r1, r2 with
  | Ok ms1, Ok ms2 => ∀ x, x ∈ ms1 ↔ x ∈ ms2
  | Raise _, Raise _ => True
  | _, _ => False
  end.

Definition same_isfile (r1 r2 : result bool) : Prop :=
  match r1, r2 with
  | Ok b1, Ok b2 => b1 = b2
  | Raise _, Raise _ => True
  | _, _ => False
  end.

(** Two filesystem objects that present the same contents. *)
Definition same_snapshot (fs1 fs2 : filesystem) : Prop :=
  (∀ path, same_matches (glob fs1 path) (glob fs2 path))
  ∧ (∀ path, same_isfile (isfile fs1 path) (isfile fs2 path)).

End FileLister.
End FileLister.

#[global] Instance FileLister_node :
  BaseNode FileLister.t FileLister.state := {
  reset := FileLister.reset;
  next := FileLister.next;
  get_state := FileLister.get_state;
}.

(** ** TextStreamingDecoder (torchdata/nodes/io/text_streaming_decoder.py) *)

Module TextStreamingDecoder.
Section TextStreamingDecoder.

Context {Node Ckpt : Type} `{!BaseNode Node Ckpt}.
Variable smart_open : opener.

Record t : Type := mk {
  source : Node;
  mode : string;
  encoding : option string;
  transport_params : metadata;
  _current_file : option string;
  _current_line : nat;
  _file_handle : option handle;
  _source_metadata : metadata;
}.

(** A checkpoint dictionary.  [reset] indexes ["source"] and
    ["current_file"] and reads ["current_line"] and ["metadata"] with
    [.get], so the latter two may be absent. *)
Record state : Type := mk_state {
  st_source : Ckpt;
  st_current_file : option string;
  st_current_line : option nat;
  st_metadata : option metadata;
}.

Definition init (source_node : Node) (mode : string)
    (encoding : option string) (transport_params : metadata) : t :=
  mk source_node mode encoding transport_params None 0 None ∅.

Definition set_source (d : t) (s : Node) : t :=
  mk s (mode d) (encoding d) (transport_params d) (_current_file d)
     (_current_line d) (_file_handle d) (_source_metadata d).

Definition set_current (d : t) (f : option string) (md : metadata) : t :=
  mk (source d) (mode d) (encoding d) (transport_params d) f
     (_current_line d) (_file_handle d) md.

Definition set_handle (d : t) (h : option handle) : t :=
  mk (source d) (mode d) (encoding d) (transport_params d)
     (_current_file d) (_current_line d) h (_source_metadata d).

Definition set_line (d : t) (n : nat) : t :=
  mk (source d) (mode d) (encoding d) (transport_params d)
     (_current_file d) n (_file_handle d) (_source_metadata d).

Definition open_file (d : t) (uri : string) : result handle :=
  smart_open uri (mode d) (encoding d) (transport_params d).

(** [for _ in range(n): next(self._file_handle)] *)
Fixpoint skip_lines (n : nat) (h : handle) : result handle :=
  match n with
  | 0 => Ok h
  | S n' =>
      match handle_next h with
      | (Ok _, h') => skip_lines n' h'
      | (Raise e, _) => Raise e
      end
  end.

(** Where the handle stands when the skipping loop stops: after [n]
    lines, or where [next(self._file_handle)] raised. *)
Fixpoint skip_stop (n : nat) (h : handle) : handle :=
  match n with
  | 0 => h
  | S n' =>
      match handle_next h with
      | (Ok _, h') => skip_stop n' h'
      | (Raise _, h') => h'
      end
  end.

(** [reset]: the outcome (it raises when the file to resume cannot be
    opened or is shorter than the recorded position) and the node.
    The handle is stored before the lines are skipped, so a skip that
    raises leaves the consumed handle in place. *)
Definition reset (d : t) (initial_state : option state)
    : result unit * t :=
  let d := set_handle d None in
  match initial_state with
  | None =>
      (Ok (),
       set_line (set_current (set_source d (reset (source d) None))
                   None ∅) 0)
  | Some st =>
      let d := set_source d (reset (source d) (Some (st_source st))) in
      let d := set_current d (st_current_file st)
                 (default ∅ (st_metadata st)) in
      let d := set_line d (default 0 (st_current_line st)) in
      match _current_file d with
      | None => (Ok (), d)
      | Some f =>
          match open_file d f with
          | Raise e => (Raise e, d)
          | Ok h =>
              match skip_lines (_current_line d) h with
              | Raise e =>
                  (Raise e,
                   set_handle d (Some (skip_stop (_current_line d) h)))
              | Ok h' => (Ok (), set_handle d (Some h'))
              end
          end
      end
  end.

(** [_get_next_file]: [Ok true] when a file was opened, [Ok false]
    when opening failed, and the source's exception otherwise. *)
Definition _get_next_file (d : t) : result bool * t :=
  match next (source d) with
  | (Raise e, s') => (Raise e, set_source d s')
  | (Ok file_data, s') =>
      let d := set_source d s' in
      let d :=
        match file_data with
        | Dict data meta =>
            set_current d (Some data)
              (match meta with
               | Some m => m
               | None => _source_metadata d
               end)
        | Str s => set_current d (Some s) ∅
        end in
      match open_file d (default EmptyString (_current_file d)) with
      | Ok h => (Ok true, set_line (set_handle d (Some h)) 0)
      | Raise e => (Ok false, set_handle d None)
      end
  end.

(** The item built for a line read from file [f] at index [i]. *)
Definition line_item (f : option string) (md : metadata) (i : nat)
    (line : string) : item :=
  let metadata : metadata :=
    {[ "file_path" := from_option VStr VNone f;
       "item_idx" := VInt (Z.of_nat i) ]} in
  let metadata :=
    if decide (md = ∅) then metadata else dict_update metadata md in
  Dict (rstrip_nl line) (Some metadata).

(** [_get_next_line]: [None] signals the end of the file or an
    exception caught by the [except Exception] clause; the handle is
    closed in both cases.  On a binary stream the line is [bytes]:
    the metadata is built and [_current_line] incremented, then
    [line.rstrip("\n")] raises [TypeError], which the clause catches,
    so the line is dropped together with the rest of the file. *)
Definition _get_next_line (d : t) : option item * t :=
  match _file_handle d with
  | None => (None, d)
  | Some h =>
      match readline h with
      | (Ok line, h') =>
          if bool_decide (line = EmptyString) then
            (None, set_handle d None)
          else if binary_stream (mode d) (encoding d) then
            (None, set_line (set_handle d None) (S (_current_line d)))
          else
            (Some (line_item (_current_file d) (_source_metadata d)
                     (_current_line d) line),
             set_line (set_handle d (Some h')) (S (_current_line d)))
      | (Raise e, _) => (None, set_handle d None)
      end
  end.

(** [next]: the two nested [while] loops as one loop; each turn either
    acquires a file (no handle) or reads a line (a handle).  [None]
    only when the fuel runs out. *)
Fixpoint next_fuel (fuel : nat) (d : t) : option (result item * t) :=
  match fuel with
  | 0 => None
  | S fuel' =>
      match _file_handle d with
      | None =>
          match _get_next_file d with
          | (Raise e, d') => Some (Raise e, d')
          | (Ok _, d') => next_fuel fuel' d'
          end
      | Some _ =>
          match _get_next_line d with
          | (None, d') => next_fuel fuel' d'
          | (Some line_data, d') => Some (Ok line_data, d')
          end
      end
  end.

Definition get_state (d : t) : state :=
  mk_state (get_state (source d)) (_current_file d)
    (Some (_current_line d)) None.

(** [drain]: call [next] until it raises; the items and the exception. *)
Fixpoint drain (fuel n : nat) (d : t) : option (list item * exn) :=
  match n with
  | 0 => None
  | S n' =>
      match next_fuel fuel d with
      | None => None
      | Some (Raise e, _) => Some ([], e)
      | Some (Ok it, d') =>
          match drain fuel n' d' with
          | None => None
          | Some (its, e) => Some (it :: its, e)
          end
      end
  end.

(** The node after [k] calls of [next]. *)
Fixpoint run_fuel (fuel k : nat) (d : t) : option t :=
  match k with
  | 0 => Some d
  | S k' =>
      match next_fuel fuel d with
      | None => None
      | Some (_, d') => run_fuel fuel k' d'
      end
  end.

(** *** The sequence a decoder is expected to produce

    These definitions describe the output over a whole upstream
    sequence; the theorems below relate them to [next_fuel]. *)

(** The URI and the source metadata in force once an upstream item
    has been pulled, [md0] being the metadata in force before. *)
Definition upstream_file (md0 : metadata) (it : item)
    : string * metadata :=
  match it with
  | Dict data meta => (data, default md0 meta)
  | Str s => (s, ∅)
  end.

(** The items for the lines [ls] of one file, numbered from [i]. *)
Fixpoint number_lines (f : option string) (md : metadata) (i : nat)
    (ls : list string) : list item :=
  match ls with
  | [] => []
  | l :: ls' => line_item f md i l :: number_lines f md (S i) ls'
  end.

(** On text streams: files that fail to open contribute nothing; the
    others contribute their lines, numbered from 0. *)
Fixpoint expected (op : string → result handle) (md0 : metadata)
    (items : list item) : list item :=
  match items with
  | [] => []
  | it :: rest =>
      let '(f, md) := upstream_file md0 it in
      match op f with
      | Ok h => number_lines (Some f) md 0 (handle_lines h)
      | Raise _ => []
      end ++ expected op md rest
  end.

(** The same from a node that may have a file open. *)
Definition expected_from (op : string → result handle)
    (cf : option string) (cl : nat) (fh : option handle)
    (md : metadata) (items : list item) : list item :=
  match fh with
  | Some h => number_lines cf md cl (handle_lines h)
  | None => []
  end ++ expected op md items.

(** The stripped lines of the upstream files that open. *)
Definition readable_lines (op : string → result handle)
    (items : list item) : list string :=
  it ← items;
  match op (item_data it) with
  | Ok h => rstrip_nl <$> handle_lines h
  | Raise _ => []
  end.

(** [next] on [d] produces the head of [out] and leaves a node from
    which the tail of [out] is expected; on an empty [out] it raises
    the end-of-sequence signal. *)
Definition next_meets (d : t) (out : list item) : Prop :=
  ∃ fuel,
    match out with
    | [] =>
        ∃ msg d', next_fuel fuel d = Some (Raise (StopIteration msg), d')
    | it :: rest =>
        ∃ s' items' cf' cl' h' md',
          next_fuel fuel d
          = Some (Ok it,
                  mk s' (mode d) (encoding d) (transport_params d)
                     cf' cl' (Some h') md')
          ∧ yields s' items'
          ∧ expected_from (open_file d) cf' cl' (Some h') md' items'
            = rest
    end.

(** An item as [_get_next_line] builds them: a dictionary whose
    metadata has the keys ["file_path"] and ["item_idx"]. *)
Definition is_line_item (it : item) : Prop :=
  ∃ line md, it = Dict line (Some md)
             ∧ is_Some (md !! "file_path") ∧ is_Some (md !! "item_idx").

(** *** Resuming

    The open handle of a node is where re-opening the current file and
    skipping the lines already emitted leads. *)
Definition positioned (d : t) : Prop :=
  match _file_handle d with
  | None => True
  | Some h =>
      ∃ f h0, _current_file d = Some f
              ∧ open_file d f = Ok h0
              ∧ skip_lines (_current_line d) h0 = Ok h
  end.

(** What every call of [next] preserves in a run started by a full
    reset of [init src0 m enc tp]. *)
Definition run_inv (src0 : Node) (m : string) (enc : option string)
    (tp : metadata) (d : t) : Prop :=
  mode d = m ∧ encoding d = enc ∧ transport_params d = tp
  ∧ (∃ j, source d = fresh_run src0 j)
  ∧ positioned d.

End TextStreamingDecoder.
End TextStreamingDecoder.

Arguments TextStreamingDecoder.t : clear implicits.
Arguments TextStreamingDecoder.state : clear implicits.

(** ** Concrete backends for the examples *)

Definition newline : string := String nl EmptyString.

(** [valid.txt] holds one line and [empty.txt] nothing; every other URI
    fails to open. *)
Definition one_valid_file : opener := λ uri _ _ _,
  if String.eqb uri "valid.txt" then
    Ok (mk_handle ("valid content" ++ newline) EOF)
  else if String.eqb uri "empty.txt" then
    Ok (mk_handle EmptyString EOF)
  else Raise (Exception "No such file or directory").

(** The example of the specification: [a.txt] holds the lines [x] and
    [y], [b.txt] the line [z]; every other URI fails to open. *)
Definition two_files : opener := λ uri _ _ _,
  if String.eqb uri "a.txt" then
    Ok (mk_handle ("x" ++ newline ++ "y" ++ newline) EOF)
  else if String.eqb uri "b.txt" then
    Ok (mk_handle ("z" ++ newline) EOF)
  else Raise (Exception "No such file or directory").

(** The item a call of [next] returns, if it returns one. *)
Definition tsd_next_item {Node Ckpt} `{!BaseNode Node Ckpt}
    (smart_open : opener) (d : TextStreamingDecoder.t Node) : option item :=
  match TextStreamingDecoder.next_fuel smart_open 8 d with
  | Some (Ok it, _) => Some it
  | _ => None
  end.

(** The node after a full reset and [k] calls of [next]. *)
Definition tsd_after {Node Ckpt} `{!BaseNode Node Ckpt}
    (smart_open : opener) (d : TextStreamingDecoder.t Node) (k : nat)
    : TextStreamingDecoder.t Node :=
  let d1 := (TextStreamingDecoder.reset smart_open d None).2 in
  default d1 (TextStreamingDecoder.run_fuel smart_open 8 k d1).

(** Two filesystem objects over one directory [data] holding [a.txt]
    and [b.txt]: they return the matches of [data/*.txt] in different
    orders, one of them with a repetition, and fail on every other
    pattern. *)
Definition fs_one : filesystem := {|
  glob := λ path,
    if String.eqb path "data/*.txt" then Ok ["data/b.txt"; "data/a.txt"]
    else Raise (Exception "connection reset");
  isfile := λ _, Ok true;
|}.

Definition fs_two : filesystem := {|
  glob := λ path,
    if String.eqb path "data/*.txt"
    then Ok ["data/a.txt"; "data/b.txt"; "data/a.txt"]
    else Raise (Exception "timed out");
  isfile := λ _, Ok true;
|}.

Definition lister_over (fs : filesystem) (patterns : list string)
    : FileLister.t :=
  FileLister.init (λ _, None) (λ _ _, fs) "data" patterns ∅.

(** Two filesystem objects over one S3 bucket holding [a.txt] and
    [b.txt]; as [s3fs] does, they return the matches without the
    scheme, here in different orders, one of them with a repetition. *)
Definition s3_one : filesystem := {|
  glob := λ path,
    if String.eqb path "s3://bucket/*.txt"
    then Ok ["bucket/b.txt"; "bucket/a.txt"]
    else Raise (Exception "connection reset");
  isfile := λ _, Ok true;
|}.

Definition s3_two : filesystem := {|
  glob := λ path,
    if String.eqb path "s3://bucket/*.txt"
    then Ok ["bucket/a.txt"; "bucket/b.txt"; "bucket/a.txt"]
    else Raise (Exception "timed out");
  isfile := λ _, Ok true;
|}.

Definition s3_lister_over (fs : filesystem) (patterns : list string)
    : FileLister.t :=
  FileLister.init
    (λ uri, if String.prefix "s3://" uri then Some "s3" else None)
    (λ _ _, fs) "s3://bucket" patterns ∅.

(** The items a decoder produces until it raises, as pairs of the line
    and of its ["item_idx"]. *)
Definition tsd_drained {Node Ckpt} `{!BaseNode Node Ckpt}
    (smart_open : opener) (d : TextStreamingDecoder.t Node)
    : option (list (string * option pyval)) :=
  match TextStreamingDecoder.drain smart_open 8 8 d with
  | Some (its, _) =>
      Some (map (λ it, (item_data it, item_metadata it !! "item_idx")) its)
  | None => None
  end.


(** ** Vocabulary of the further properties *)

(** The index a lister starts from after [reset]. *)
Definition lister_start (st : option FileLister.state) : nat :=
  match st with
  | Some (FileLister.mk_state (Some idx)) => idx
  | _ => 0
  end.

(** The list a lister holds after [reset]. *)
Definition lister_listing (l : FileLister.t) : list string :=
  default [] (FileLister._file_paths (FileLister.reset l None)).

(** The item a lister emits for a path. *)
Definition lister_item (l : FileLister.t) (path : string) : item :=
  Dict path
    (Some {[ "fs_protocol" := VStr (FileLister.protocol l);
             "source" := VStr (FileLister.protocol l) ]}).

(** A directory [data] holding the file [a.txt] and the directory
    [sub]. *)
Definition fs_dir : filesystem := {|
  glob := λ path,
    if String.eqb path "data/*" then Ok ["data/sub"; "data/a.txt"]
    else Ok [];
  isfile := λ path, Ok (String.eqb path "data/a.txt");
|}.

(** The upstream sequence with the metadata the decoder uses for each
    item made explicit: a dictionary without ["metadata"] takes the
    metadata in force, a bare string takes none. *)
Fixpoint inherit_metadata (md : metadata) (items : list item) : list item :=
  match items with
  | [] => []
  | Dict f None :: rest => Dict f (Some md) :: inherit_metadata md rest
  | Dict f (Some m) :: rest => Dict f (Some m) :: inherit_metadata m rest
  | Str f :: rest => Dict f (Some ∅) :: inherit_metadata ∅ rest
  end.

(** An upstream handing out a fixed sequence of items, as
    [MockSourceNode] does for paths; it serves to build examples with
    bare strings and with dictionaries that have no ["metadata"]. *)
Module ItemSource.

Record t : Type := mk {
  items : list item;
  pos : nat;
}.

Definition reset (n : t) (initial_state : option nat) : t :=
  mk (items n) (default 0 initial_state).

Definition next (n : t) : result item * t :=
  match items n !! pos n with
  | None => (Raise (StopIteration "No more items"), n)
  | Some it => (Ok it, mk (items n) (S (pos n)))
  end.

Definition get_state (n : t) : nat := pos n.

End ItemSource.

Definition ItemSource_node : BaseNode ItemSource.t nat := {|
  reset := ItemSource.reset;
  next := ItemSource.next;
  get_state := ItemSource.get_state;
|}.

(** The files of the directory [data] listed by [fs_one] and
    [fs_two]. *)
Definition data_files : opener := λ uri _ _ _,
  if String.eqb uri "data/a.txt" then
    Ok (mk_handle ("x" ++ newline ++ "y" ++ newline) EOF)
  else if String.eqb uri "data/b.txt" then
    Ok (mk_handle ("z" ++ newline) EOF)
  else Raise (Exception "No such file or directory").

(** * Properties *)

(** ** Lines and [readline] *)

Section Lines.

Lemma readline_str_text_lines s :
  has_newline s = true →
  text_lines s = (readline_str s).1 :: text_lines (readline_str s).2
  ∧ (readline_str s).1 ≠ EmptyString.
Proof.
  induction s as [|c s IH]; simpl; [discriminate|].
  destruct (is_nl c) eqn:Hc; simpl.
  - intros _. split; [reflexivity | discriminate].
  - intros Hs. destruct (IH Hs) as [IH1 _]. rewrite IH1.
    destruct (readline_str s) as [l r]. simpl.
    split; [reflexivity | discriminate].
Qed.

Lemma readline_str_complete_lines s :
  has_newline s = true →
  complete_lines s
  = (readline_str s).1 :: complete_lines (readline_str s).2.
Proof.
  induction s as [|c s IH]; simpl; [discriminate|].
  destruct (is_nl c) eqn:Hc; simpl; [reflexivity|].
  intros Hs. rewrite Hs, (IH Hs).
  destruct (readline_str s) as [l r]. reflexivity.
Qed.

Lemma text_lines_no_newline s :
  has_newline s = false →
  text_lines s = match s with EmptyString => [] | _ => [s] end.
Proof.
  induction s as [|c s IH]; simpl; [reflexivity|].
  destruct (is_nl c); simpl; [discriminate|].
  intros Hs. rewrite (IH Hs). destruct s; reflexivity.
Qed.

Lemma complete_lines_no_newline s :
  has_newline s = false → complete_lines s = [].
Proof.
  destruct s as [|c s]; simpl; [reflexivity|].
  destruct (is_nl c); simpl; [discriminate|].
  intros ->. reflexivity.
Qed.

(** [readline] returns the first of the remaining lines and leaves
    the others. *)
Lemma readline_cons h l ls :
  handle_lines h = l :: ls →
  ∃ h', readline h = (Ok l, h') ∧ handle_lines h' = ls
        ∧ l ≠ EmptyString.
Proof.
  destruct h as [s e]. unfold handle_lines, readline. simpl.
  destruct (has_newline s) eqn:Hs.
  - destruct (readline_str_text_lines s Hs) as [Ht Hne].
    pose proof (readline_str_complete_lines s Hs) as Hc.
    destruct (readline_str s) as [l' r]. simpl in *.
    destruct e; intros Heq.
    + rewrite Ht in Heq. injection Heq as <- <-. eauto.
    + rewrite Hc in Heq. injection Heq as <- <-. eauto.
  - destruct e.
    + rewrite (text_lines_no_newline s Hs).
      destruct s; [discriminate|]. intros [= <- <-].
      eexists. split; [reflexivity|]. split; [reflexivity|discriminate].
    + rewrite (complete_lines_no_newline s Hs). discriminate.
Qed.

(** With no line left, [readline] reports the end of the file or the
    stream's error. *)
Lemma readline_nil h :
  handle_lines h = [] →
  (∃ h', readline h = (Ok EmptyString, h'))
  ∨ (∃ e h', readline h = (Raise e, h')).
Proof.
  destruct h as [s e]. unfold handle_lines, readline. simpl.
  destruct (has_newline s) eqn:Hs.
  - destruct (readline_str_text_lines s Hs) as [Ht _].
    pose proof (readline_str_complete_lines s Hs) as Hc.
    destruct e; intros Heq; congruence.
  - destruct e; [|eauto].
    rewrite (text_lines_no_newline s Hs).
    destruct s; [eauto | discriminate].
Qed.

Lemma rstrip_nl_no_newline b :
  has_newline b = false → rstrip_nl b = b.
Proof.
  induction b as [|c b IH]; simpl; [reflexivity|].
  destruct (is_nl c); simpl; [discriminate|].
  intros Hb. rewrite (IH Hb). destruct b; reflexivity.
Qed.

Lemma rstrip_nl_terminated b :
  has_newline b = false → rstrip_nl (b ++ String nl EmptyString) = b.
Proof.
  induction b as [|c b IH]; simpl; [reflexivity|].
  destruct (is_nl c); simpl; [discriminate|].
  intros Hb. rewrite (IH Hb). destruct b; reflexivity.
Qed.

Lemma line_body_no_newline s : has_newline (line_body s) = false.
Proof.
  induction s as [|c s IH]; simpl; [reflexivity|].
  destruct (is_nl c) eqn:Hc; simpl; [reflexivity|]. by rewrite Hc.
Qed.

Lemma is_nl_eq c : is_nl c = true → c = nl.
Proof. unfold is_nl. by intros ?%Ascii.eqb_eq. Qed.

Lemma readline_str_body s :
  has_newline s = true →
  (readline_str s).1 = line_body s ++ String nl EmptyString.
Proof.
  induction s as [|c s IH]; simpl; [discriminate|].
  destruct (is_nl c) eqn:Hc; simpl.
  - intros _. by rewrite (is_nl_eq c Hc).
  - intros Hs. specialize (IH Hs).
    destruct (readline_str s); simpl in *. by rewrite IH.
Qed.

Lemma readline_str_shorter s :
  has_newline s = true →
  String.length (readline_str s).2 < String.length s.
Proof.
  induction s as [|a s IH]; simpl; [discriminate|].
  destruct (is_nl a); simpl; [lia|].
  intros Hs. specialize (IH Hs). destruct (readline_str s). simpl in *. lia.
Qed.

(** Every line a handle delivers is a newline-free body, followed by
    one newline unless it is the unterminated last line; stripping it
    gives the body. *)
Lemma handle_line_shape h l :
  l ∈ handle_lines h →
  ∃ body, has_newline body = false ∧ rstrip_nl l = body
          ∧ (l = body ++ String nl EmptyString
             ∨ (l = body ∧ body ≠ EmptyString)).
Proof.
  destruct h as [s e]. unfold handle_lines. simpl.
  remember (S (String.length s)) as n eqn:Hn.
  assert (Hlt : String.length s < n) by lia. clear Hn.
  revert s Hlt. induction n as [|n IH]; intros s Hlt Hl; [lia|].
  destruct (has_newline s) eqn:Hs.
  - pose proof (readline_str_text_lines s Hs) as [Ht _].
    pose proof (readline_str_complete_lines s Hs) as Hc.
    pose proof (readline_str_body s Hs) as Hb.
    pose proof (readline_str_shorter s Hs) as Hlen.
    assert (l = (readline_str s).1 ∨
            l ∈ match e with
                | EOF => text_lines (readline_str s).2
                | IOError _ => complete_lines (readline_str s).2
                end) as [->|Hin].
    { destruct e; [rewrite Ht in Hl | rewrite Hc in Hl];
        apply elem_of_cons in Hl; tauto. }
    + exists (line_body s). rewrite Hb.
      split; [apply line_body_no_newline|].
      split; [apply rstrip_nl_terminated, line_body_no_newline | by left].
    + apply (IH (readline_str s).2); [lia | done].
  - destruct e.
    + rewrite (text_lines_no_newline s Hs) in Hl.
      destruct s; [by apply elem_of_nil in Hl|].
      apply list_elem_of_singleton in Hl as ->.
      eexists. split; [exact Hs|].
      split; [by apply rstrip_nl_no_newline | by right].
    + rewrite (complete_lines_no_newline s Hs) in Hl.
      by apply elem_of_nil in Hl.
Qed.

End Lines.

(** ** TextStreamingDecoder: the [next] loop *)

Section DecoderLoop.

Import TextStreamingDecoder.

Context {Node Ckpt : Type} `{!BaseNode Node Ckpt}.
Variable smart_open : opener.
Variables (m : string) (enc : option string) (tp : metadata).

Local Abbreviation D := (fun s cf cl fh md => mk s m enc tp cf cl fh md).
Local Abbreviation op := (fun u => smart_open u m enc tp).
Local Abbreviation next_fuel := (next_fuel smart_open).
Local Abbreviation drain := (drain smart_open).

Lemma next_fuel_S F d x :
  next_fuel F d = Some x → next_fuel (S F) d = Some x.
Proof.
  revert d. induction F as [|F IH]; intros d; [discriminate|].
  intros Hx. simpl in Hx |- *.
  destruct (_file_handle d).
  - destruct (_get_next_line d) as [[it|] d']; [done | by apply IH].
  - destruct (_get_next_file smart_open d) as [[b|e] d'];
      [by apply IH | done].
Qed.

Lemma next_fuel_mono (F F' : nat) d x :
  (F ≤ F')%nat → next_fuel F d = Some x → next_fuel F' d = Some x.
Proof.
  induction 1 as [|F' _ IH]; [done|].
  intros Hx. by apply next_fuel_S, IH.
Qed.

Lemma drain_mono (F F' k k' : nat) d x :
  (F ≤ F')%nat → (k ≤ k')%nat →
  drain F k d = Some x → drain F' k' d = Some x.
Proof.
  intros HF. revert k' d x. induction k as [|k IH]; intros k' d x Hk;
    [discriminate|].
  destruct k' as [|k']; [lia|]. simpl.
  destruct (next_fuel F d) as [[[it|e] d']|] eqn:Hn; [| |discriminate].
  - rewrite (next_fuel_mono F F' d _ HF Hn).
    destruct (drain F k d') as [[its e]|] eqn:Hd; [|discriminate].
    rewrite (IH k' d' _ ltac:(lia) Hd). done.
  - by rewrite (next_fuel_mono F F' d _ HF Hn).
Qed.

(** One turn of the loop, case by case. *)

Lemma next_line F s cf cl h md l h' :
  binary_stream m enc = false →
  readline h = (Ok l, h') → l ≠ EmptyString →
  next_fuel (S F) (D s cf cl (Some h) md)
  = Some (Ok (line_item cf md cl l), D s cf (S cl) (Some h') md).
Proof.
  intros Ht Hr Hl. simpl. unfold _get_next_line. simpl. rewrite Hr, Ht.
  by rewrite bool_decide_eq_false_2.
Qed.

(** On a binary stream a turn with a file open closes it, whatever
    [readline] delivers. *)
Lemma next_binary s cf cl h md :
  binary_stream m enc = true →
  ∃ cl', ∀ F, next_fuel (S F) (D s cf cl (Some h) md)
              = next_fuel F (D s cf cl' None md).
Proof.
  intros Hb. unfold TextStreamingDecoder.next_fuel. fold next_fuel.
  unfold _get_next_line. simpl.
  destruct (readline h) as [[l|e] h']; [|by exists cl].
  case_bool_decide; [by exists cl|]. rewrite Hb. by exists (S cl).
Qed.

(** A turn with a file open either returns a line item or closes the
    file. *)
Lemma next_handle_turn s cf cl h md :
  (∃ it d', ∀ F, next_fuel (S F) (D s cf cl (Some h) md)
                 = Some (Ok it, d'))
  ∨ (∃ cl', ∀ F, next_fuel (S F) (D s cf cl (Some h) md)
                 = next_fuel F (D s cf cl' None md)).
Proof.
  unfold TextStreamingDecoder.next_fuel. fold next_fuel.
  unfold _get_next_line. simpl.
  destruct (readline h) as [[l|e] h']; [|right; by exists cl].
  case_bool_decide; [right; by exists cl|].
  destruct (binary_stream m enc); [right; by exists (S cl)|].
  left. by eexists _, _.
Qed.

Lemma next_eof F s cf cl h md :
  handle_lines h = [] →
  next_fuel (S F) (D s cf cl (Some h) md)
  = next_fuel F (D s cf cl None md).
Proof.
  intros Hl. simpl. unfold _get_next_line. simpl.
  destruct (readline_nil h Hl) as [[h' ->]|(e & h' & ->)]; done.
Qed.

Lemma next_stop F s cf cl md e s' :
  next s = (Raise e, s') →
  next_fuel (S F) (D s cf cl None md)
  = Some (Raise e, D s' cf cl None md).
Proof. intros Hs. simpl. unfold _get_next_file. simpl. by rewrite Hs. Qed.

Lemma next_open_ok F s cf cl md it s' f md' h :
  next s = (Ok it, s') → upstream_file md it = (f, md') →
  op f = Ok h →
  next_fuel (S F) (D s cf cl None md)
  = next_fuel F (D s' (Some f) 0 (Some h) md').
Proof.
  intros Hs Hu Ho. simpl. unfold _get_next_file. simpl. rewrite Hs.
  destruct it as [u|u [mu|]]; simpl in Hu; injection Hu as <- <-;
    unfold open_file; simpl; by rewrite Ho.
Qed.

Lemma next_open_fail F s cf cl md it s' f md' e :
  next s = (Ok it, s') → upstream_file md it = (f, md') →
  op f = Raise e →
  next_fuel (S F) (D s cf cl None md)
  = next_fuel F (D s' (Some f) cl None md').
Proof.
  intros Hs Hu Ho. simpl. unfold _get_next_file. simpl. rewrite Hs.
  destruct it as [u|u [mu|]]; simpl in Hu; injection Hu as <- <-;
    unfold open_file; simpl; by rewrite Ho.
Qed.

(** With no file open, [next] meets the expected sequence of the
    upstream items: unopenable and empty files are passed over inside
    the call. *)
Lemma next_meets_acquire s items :
  binary_stream m enc = false →
  yields s items → ∀ cf cl md,
  next_meets smart_open (D s cf cl None md) (expected op md items).
Proof.
  intros Ht.
  induction 1 as [s msg s' Hs | s it s' items Hs Hy IH]; intros cf cl md.
  - exists 1. simpl expected. exists msg. eexists. by apply next_stop.
  - simpl expected.
    destruct (upstream_file md it) as [f md'] eqn:Hu.
    destruct (op f) as [h|e] eqn:Ho.
    + destruct (handle_lines h) as [|l ls] eqn:Hl.
      * destruct (IH (Some f) 0 md') as [F HF]. exists (S (S F)).
        cbn [number_lines app].
        rewrite (next_open_ok _ _ _ _ _ _ _ _ _ _ Hs Hu Ho).
        rewrite (next_eof _ _ _ _ _ _ Hl). exact HF.
      * destruct (readline_cons h l ls Hl) as (h' & Hr & Hl' & Hne).
        exists 2. cbn [number_lines app].
        exists s', items, (Some f), 1, h', md'.
        split; [|split; [done|]].
        -- rewrite (next_open_ok 1 _ _ _ _ _ _ _ _ _ Hs Hu Ho).
           by rewrite (next_line 0 _ _ _ _ _ _ _ Ht Hr Hne).
        -- unfold expected_from. by rewrite Hl'.
    + destruct (IH (Some f) cl md') as [F HF]. exists (S F).
      cbn [number_lines app].
      rewrite (next_open_fail _ _ _ _ _ _ _ _ _ _ Hs Hu Ho). exact HF.
Qed.

(** The same from any node, with or without a file open. *)
Lemma next_meets_any s items cf cl fh md :
  binary_stream m enc = false →
  yields s items →
  next_meets smart_open (D s cf cl fh md)
    (expected_from op cf cl fh md items).
Proof.
  intros Ht Hy. destruct fh as [h|]; [|by apply next_meets_acquire].
  unfold expected_from.
  destruct (handle_lines h) as [|l ls] eqn:Hl.
  - destruct (next_meets_acquire s items Ht Hy cf cl md) as [F HF].
    exists (S F). cbn [number_lines app]. rewrite (next_eof _ _ _ _ _ _ Hl). exact HF.
  - destruct (readline_cons h l ls Hl) as (h' & Hr & Hl' & Hne).
    exists 1. cbn [number_lines app].
    exists s, items, cf, (S cl), h', md.
    split; [by apply next_line|]. split; [done|].
    unfold expected_from. by rewrite Hl'.
Qed.

(** Draining a node gives the whole expected sequence and ends with
    the end-of-sequence signal. *)
Lemma drain_expected out :
  binary_stream m enc = false →
  ∀ s items cf cl fh md,
  yields s items →
  expected_from op cf cl fh md items = out →
  ∃ F k msg, drain F k (D s cf cl fh md) = Some (out, StopIteration msg).
Proof.
  intros Ht.
  induction out as [|it rest IH]; intros s items cf cl fh md Hy Hout.
  - destruct (next_meets_any s items cf cl fh md Ht Hy) as [F HF].
    rewrite Hout in HF. destruct HF as (msg & d' & HF).
    exists F, 1, msg. simpl. by rewrite HF.
  - destruct (next_meets_any s items cf cl fh md Ht Hy) as [F HF].
    rewrite Hout in HF.
    destruct HF as (s' & items' & cf' & cl' & h' & md' & HF & Hy' & He).
    destruct (IH s' items' cf' cl' (Some h') md' Hy' He)
      as (F' & k & msg & Hd).
    exists (F `max` F'), (S k), msg. simpl.
    rewrite (next_fuel_mono F (F `max` F') _ _ ltac:(lia) HF).
    simpl in Hd |- *.
    by rewrite (drain_mono F' (F `max` F') k k _ _ ltac:(lia) ltac:(lia) Hd).
Qed.

(** On a binary stream no line survives: every file that opens is
    closed at its first line, so [next] ends with the end-of-sequence
    signal of the source. *)
Lemma next_binary_acquire s items :
  binary_stream m enc = true →
  yields s items → ∀ cf cl md,
  ∃ F msg d',
    next_fuel F (D s cf cl None md) = Some (Raise (StopIteration msg), d').
Proof.
  intros Hb.
  induction 1 as [s msg s' Hs | s it s' items Hs Hy IH]; intros cf cl md.
  - exists 1, msg. eexists. by apply next_stop.
  - destruct (upstream_file md it) as [f md'] eqn:Hu.
    destruct (op f) as [h|e] eqn:Ho.
    + destruct (next_binary s' (Some f) 0 h md' Hb) as [cl' Hn].
      destruct (IH (Some f) cl' md') as (F & msg & d' & HF).
      exists (S (S F)), msg, d'.
      rewrite (next_open_ok _ _ _ _ _ _ _ _ _ _ Hs Hu Ho).
      by rewrite Hn.
    + destruct (IH (Some f) cl md') as (F & msg & d' & HF).
      exists (S F), msg, d'.
      by rewrite (next_open_fail _ _ _ _ _ _ _ _ _ _ Hs Hu Ho).
Qed.

Lemma next_binary_any s items cf cl fh md :
  binary_stream m enc = true →
  yields s items →
  ∃ F msg d',
    next_fuel F (D s cf cl fh md) = Some (Raise (StopIteration msg), d').
Proof.
  intros Hb Hy. destruct fh as [h|]; [|by apply (next_binary_acquire s items)].
  destruct (next_binary s cf cl h md Hb) as [cl' Hn].
  destruct (next_binary_acquire s items Hb Hy cf cl' md)
    as (F & msg & d' & HF).
  exists (S F), msg, d'. by rewrite Hn.
Qed.

Lemma drain_binary s items cf cl fh md :
  binary_stream m enc = true →
  yields s items →
  ∃ F k msg, drain F k (D s cf cl fh md) = Some ([], StopIteration msg).
Proof.
  intros Hb Hy.
  destruct (next_binary_any s items cf cl fh md Hb Hy) as (F & msg & d' & HF).
  exists F, 1, msg. simpl. by rewrite HF.
Qed.

(** The loop of [next] takes at most two turns for each upstream item
    left, and two more. *)
Lemma next_fuel_acquire_bound s items :
  yields s items → ∀ cf cl md,
  is_Some (next_fuel (2 * length items + 1) (D s cf cl None md)).
Proof.
  induction 1 as [s msg s' Hs | s it s' items Hs Hy IH]; intros cf cl md.
  - eexists. by apply next_stop.
  - replace (2 * length (it :: items) + 1)
      with (S (S (2 * length items + 1))) by (simpl; lia).
    destruct (upstream_file md it) as [f md'] eqn:Hu.
    destruct (op f) as [h|e] eqn:Ho.
    + rewrite (next_open_ok _ _ _ _ _ _ _ _ _ _ Hs Hu Ho).
      destruct (next_handle_turn s' (Some f) 0 h md')
        as [(x & d' & Hn)|(cl' & Hn)]; rewrite Hn; [by eexists | apply IH].
    + rewrite (next_open_fail _ _ _ _ _ _ _ _ _ _ Hs Hu Ho).
      destruct (IH (Some f) cl md') as [x Hx]. exists x.
      by apply next_fuel_S.
Qed.

Lemma next_fuel_bound s items cf cl fh md :
  yields s items →
  is_Some (next_fuel (2 * length items + 2) (D s cf cl fh md)).
Proof.
  intros Hy.
  replace (2 * length items + 2) with (S (2 * length items + 1)) by lia.
  destruct fh as [h|].
  - destruct (next_handle_turn s cf cl h md)
      as [(x & d' & Hn)|(cl' & Hn)]; rewrite Hn;
      [by eexists | by apply next_fuel_acquire_bound].
  - destruct (next_fuel_acquire_bound s items Hy cf cl md) as [x Hx].
    exists x. by apply next_fuel_S.
Qed.

Lemma line_item_is_line_item f md i l : is_line_item (line_item f md i l).
Proof.
  unfold line_item, is_line_item. eexists _, _. split; [reflexivity|].
  case_decide.
  - split; eexists; by simplify_map_eq.
  - unfold dict_update. split; apply lookup_union_is_Some; right;
      eexists; by simplify_map_eq.
Qed.

Lemma number_lines_is_line_item f md i ls :
  Forall is_line_item (number_lines f md i ls).
Proof.
  revert i. induction ls as [|l ls IH]; intros i; simpl; constructor;
    [apply line_item_is_line_item | apply IH].
Qed.

Lemma expected_is_line_item md items :
  Forall is_line_item (expected op md items).
Proof.
  revert md. induction items as [|it items IH]; intros md; simpl;
    [constructor|].
  destruct (upstream_file md it) as [f md'].
  apply Forall_app. split; [|apply IH].
  destruct (op f); [apply number_lines_is_line_item | constructor].
Qed.

Lemma expected_from_is_line_item cf cl fh md items :
  Forall is_line_item (expected_from op cf cl fh md items).
Proof.
  unfold expected_from. apply Forall_app.
  split; [|apply expected_is_line_item].
  destruct fh; [apply number_lines_is_line_item | constructor].
Qed.

Lemma number_lines_data f md i ls :
  item_data <$> number_lines f md i ls = rstrip_nl <$> ls.
Proof.
  revert i. induction ls as [|l ls IH]; intros i; simpl; [done|].
  by rewrite IH.
Qed.

Lemma number_lines_length f md i ls :
  length (number_lines f md i ls) = length ls.
Proof.
  revert i. induction ls as [|l ls IH]; intros i; simpl; [done|].
  by rewrite IH.
Qed.

Lemma number_lines_lookup f md i ls j l :
  ls !! j = Some l →
  number_lines f md i ls !! j = Some (line_item f md (i + j) l).
Proof.
  revert i j. induction ls as [|l' ls IH]; intros i j; [done|].
  destruct j as [|j]; simpl.
  - intros [= ->]. by rewrite Nat.add_0_r.
  - intros Hj. rewrite (IH (S i) j Hj). do 2 f_equal. lia.
Qed.

Lemma upstream_file_data md it : (upstream_file md it).1 = item_data it.
Proof. by destruct it. Qed.

Lemma expected_data md items :
  item_data <$> expected op md items = readable_lines op items.
Proof.
  revert md. induction items as [|it items IH]; intros md; [done|].
  simpl. pose proof (upstream_file_data md it) as Hf.
  destruct (upstream_file md it) as [f md']. simpl in Hf. subst f.
  rewrite fmap_app, IH. unfold readable_lines. simpl. f_equal.
  destruct (op (item_data it)); [apply number_lines_data | done].
Qed.

(** X24 (skip on bad file, text streams).  When the files are opened
    as text, then over any finite upstream sequence, in particular
    one where a URI that fails to open precedes a readable one,
    draining the decoder ends with the end-of-sequence signal and no
    other exception; the payloads emitted are exactly the stripped
    lines of the files that open; and a failed open makes the same
    call of [next] go on with the source advanced by one item. *)
Theorem tsd_skip_on_bad_file s items cf cl md :
  binary_stream m enc = false →
  yields s items →
  (∃ F k msg out,
      drain F k (D s cf cl None md) = Some (out, StopIteration msg)
      ∧ out = expected op md items
      ∧ item_data <$> out = readable_lines op items)
  ∧ (∀ it s' e F,
      next s = (Ok it, s') → op (item_data it) = Raise e →
      _get_next_file smart_open (D s cf cl None md)
      = (Ok false,
         D s' (Some (item_data it)) cl None (upstream_file md it).2)
      ∧ next_fuel (S F) (D s cf cl None md)
        = next_fuel F
            (D s' (Some (item_data it)) cl None (upstream_file md it).2)).
Proof.
  intros Ht Hy. split.
  - destruct (drain_expected (expected op md items) Ht s items cf cl None
                md Hy eq_refl) as (F & k & msg & Hd).
    exists F, k, msg, (expected op md items).
    split; [exact Hd|]. split; [done | apply expected_data].
  - intros it s' e F Hs Ho. split.
    + unfold _get_next_file. simpl. rewrite Hs.
      destruct it as [u|u [mu|]]; simpl in *; unfold open_file; simpl;
        by rewrite Ho.
    + apply (next_open_fail F s cf cl md it s' _ _ e Hs); [|done].
      rewrite <- (upstream_file_data md it).
      by destruct (upstream_file md it).
Qed.

(** C8 (every call returns).  Whenever the upstream is finite, a call
    of [next] on any node, in any mode, returns: its loop takes at
    most two turns for each upstream item left and two more, so files
    that fail to open, files without lines and files dropped on a
    read error are consumed inside the call.  What it returns is a
    line item or the end-of-sequence signal and nothing else: on a
    text stream the first item of the expected sequence, or the
    signal when that sequence is empty; on a binary stream always the
    signal. *)
Theorem tsd_next_returns s items cf cl fh md :
  yields s items →
  ∃ r d',
    (∀ F', (2 * length items + 2 ≤ F')%nat →
           next_fuel F' (D s cf cl fh md) = Some (r, d'))
    ∧ match (if binary_stream m enc then []
             else expected_from op cf cl fh md items) with
      | [] => ∃ msg, r = Raise (StopIteration msg)
      | it :: _ => r = Ok it ∧ is_line_item it
      end.
Proof.
  intros Hy.
  destruct (next_fuel_bound s items cf cl fh md Hy) as [[r d'] HB].
  exists r, d'.
  split; [intros F' HF'; by apply (next_fuel_mono _ F' _ _ HF' HB)|].
  assert (Hsame : ∀ F x, next_fuel F (D s cf cl fh md) = Some x →
                         x = (r, d')).
  { intros F x Hx.
    pose proof (next_fuel_mono F (F `max` (2 * length items + 2)) _ _
                  ltac:(lia) Hx) as H1.
    pose proof (next_fuel_mono (2 * length items + 2)
                  (F `max` (2 * length items + 2)) _ _
                  ltac:(lia) HB) as H2.
    congruence. }
  destruct (binary_stream m enc) eqn:Hb.
  - destruct (next_binary_any s items cf cl fh md Hb Hy)
      as (F & msg & d1 & HF).
    apply Hsame in HF. injection HF as <- _. by exists msg.
  - destruct (next_meets_any s items cf cl fh md Hb Hy) as [F HF].
    pose proof (expected_from_is_line_item cf cl fh md items) as Hall.
    destruct (expected_from op cf cl fh md items) as [|it rest].
    + destruct HF as (msg & d1 & HF).
      apply Hsame in HF. injection HF as <- _. by exists msg.
    + destruct HF as (s' & items' & cf' & cl' & h' & md' & HF & _).
      apply Hsame in HF. injection HF as <- _.
      split; [done | by inversion Hall].
Qed.

End DecoderLoop.

Lemma MockSourceNode_yields paths md idx :
  yields (MockSourceNode.mk paths md idx)
    ((λ p, Dict p (Some md)) <$> drop idx paths).
Proof.
  remember (length paths - idx) as n eqn:Hn.
  revert idx Hn. induction n as [|n IH]; intros idx Hn.
  - rewrite drop_ge by lia. eapply yields_stop. simpl.
    unfold MockSourceNode.next. simpl.
    by rewrite lookup_ge_None_2 by lia.
  - destruct (paths !! idx) as [p|] eqn:Hp.
    + rewrite (drop_S _ _ _ Hp). simpl. eapply yields_item.
      * simpl. unfold MockSourceNode.next. simpl. by rewrite Hp.
      * apply IH. lia.
    + apply lookup_ge_None in Hp. lia.
Qed.

Ltac yields_by_eval :=
  repeat (eapply yields_item; [reflexivity|]);
  eapply yields_stop; reflexivity.

Lemma tsd_skip_on_bad_file_witness :
  (binary_stream "r" (Some "utf-8") = false
   ∧ yields (MockSourceNode.init ["nonexistent.txt"; "valid.txt"] ∅)
       [Dict "nonexistent.txt" (Some ∅); Dict "valid.txt" (Some ∅)])
  ∧ ∃ F k msg out,
      TextStreamingDecoder.drain one_valid_file F k
        (TextStreamingDecoder.mk
           (MockSourceNode.init ["nonexistent.txt"; "valid.txt"] ∅)
           "r" (Some "utf-8") ∅ None 0 None ∅)
      = Some (out, StopIteration msg)
      ∧ item_data <$> out = ["valid content"].
Proof.
  assert (Hy : yields
            (MockSourceNode.init ["nonexistent.txt"; "valid.txt"] ∅)
            [Dict "nonexistent.txt" (Some ∅); Dict "valid.txt" (Some ∅)])
    by yields_by_eval.
  split; [by split|].
  destruct (tsd_skip_on_bad_file one_valid_file "r" (Some "utf-8") ∅
              _ _ None 0 ∅ eq_refl Hy)
    as [(F & k & msg & out & Hd & _ & Hout) _].
  exists F, k, msg, out. split; [exact Hd | exact Hout].
Defined.

Lemma tsd_next_returns_witness :
  yields
    (MockSourceNode.init ["nonexistent.txt"; "empty.txt"; "valid.txt"] ∅)
    [Dict "nonexistent.txt" (Some ∅); Dict "empty.txt" (Some ∅);
     Dict "valid.txt" (Some ∅)]
  ∧ ∃ r d',
      (∀ F', (8 ≤ F')%nat →
         TextStreamingDecoder.next_fuel one_valid_file F'
           (TextStreamingDecoder.mk
              (MockSourceNode.init
                 ["nonexistent.txt"; "empty.txt"; "valid.txt"] ∅)
              "r" (Some "utf-8") ∅ None 0 None ∅) = Some (r, d'))
      ∧ r = Ok (Dict "valid content"
                  (Some {[ "file_path" := VStr "valid.txt";
                           "item_idx" := VInt 0 ]})).
Proof.
  assert (Hy : yields
            (MockSourceNode.init
               ["nonexistent.txt"; "empty.txt"; "valid.txt"] ∅)
            [Dict "nonexistent.txt" (Some ∅); Dict "empty.txt" (Some ∅);
             Dict "valid.txt" (Some ∅)])
    by yields_by_eval.
  split; [exact Hy|].
  destruct (tsd_next_returns one_valid_file "r" (Some "utf-8") ∅
              _ _ None 0 None ∅ Hy)
    as (r & d' & HF & Hr).
  exists r, d'. split; [exact HF|].
  vm_compute in Hr. destruct Hr as [-> _]. vm_compute. reflexivity.
Defined.

(** ** The order on strings *)

Section StringOrder.

Lemma ascii_compare_refl c : Ascii.compare c c = Eq.
Proof. unfold Ascii.compare. apply N.compare_refl. Qed.

Lemma ascii_compare_lt_trans a b c :
  Ascii.compare a b = Lt → Ascii.compare b c = Lt →
  Ascii.compare a c = Lt.
Proof.
  unfold Ascii.compare. rewrite !N.compare_lt_iff. lia.
Qed.

Lemma string_compare_refl s : String.compare s s = Eq.
Proof.
  induction s as [|c s IH]; simpl; [done|].
  by rewrite ascii_compare_refl.
Qed.

Lemma string_compare_lt_trans s1 s2 s3 :
  String.compare s1 s2 = Lt → String.compare s2 s3 = Lt →
  String.compare s1 s3 = Lt.
Proof.
  revert s2 s3. induction s1 as [|a s1 IH]; intros [|b s2] [|c s3];
    simpl; try done.
  destruct (Ascii.compare a b) eqn:Hab;
    destruct (Ascii.compare b c) eqn:Hbc; try done.
  - apply Ascii.compare_eq_iff in Hab as ->.
    apply Ascii.compare_eq_iff in Hbc as ->.
    rewrite ascii_compare_refl. apply IH.
  - apply Ascii.compare_eq_iff in Hab as ->. by rewrite Hbc.
  - apply Ascii.compare_eq_iff in Hbc as <-. by rewrite Hab.
  - by rewrite (ascii_compare_lt_trans a b c).
Qed.

#[global] Instance str_le_total : Total str_le.
Proof. intros s1 s2. apply String.leb_total. Qed.

#[global] Instance str_le_antisymm : AntiSymm (=) str_le.
Proof. intros s1 s2. apply String.leb_antisym. Qed.

#[global] Instance str_le_trans : Transitive str_le.
Proof.
  intros s1 s2 s3. unfold str_le, String.leb.
  destruct (String.compare s1 s2) eqn:H12; [| |done];
    destruct (String.compare s2 s3) eqn:H23; try done; intros _ _.
  - apply String.compare_eq_iff in H12 as ->. by rewrite H23.
  - apply String.compare_eq_iff in H12 as ->. by rewrite H23.
  - apply String.compare_eq_iff in H23 as <-. by rewrite H12.
  - by rewrite (string_compare_lt_trans s1 s2 s3).
Qed.

End StringOrder.

(** ** FileLister: enumeration *)

Lemma lister_next_eq (l : FileLister.t) : next l = FileLister.next l.
Proof. reflexivity. Qed.

Lemma lister_reset_eq (l : FileLister.t) st :
  reset l st = FileLister.reset l st.
Proof. reflexivity. Qed.

Lemma lister_get_state_eq (l : FileLister.t) :
  get_state l = FileLister.get_state l.
Proof. reflexivity. Qed.

Section ListerFacts.

Import FileLister.

Lemma bind_Ok {A B} (a : A) (f : A → result B) : Ok a ≫= f = f a.
Proof. reflexivity. Qed.

Lemma add_pattern_eq l p acc :
  add_pattern l p acc = Ok (acc ∪ pattern_matches l p).
Proof.
  unfold add_pattern, pattern_matches.
  destruct (glob_pattern l p) as [ms|e]; simpl; [done|].
  by rewrite (right_id_L ∅ (∪)).
Qed.

Lemma for_each_add_pattern l pats acc :
  for_each (add_pattern l) pats acc = Ok (acc ∪ matched l pats).
Proof.
  revert acc. induction pats as [|p pats IH]; intros acc;
    cbn [for_each].
  - unfold matched. simpl. by rewrite (right_id_L ∅ (∪)).
  - rewrite add_pattern_eq, bind_Ok, IH. f_equal.
    unfold matched. simpl. by rewrite (assoc_L (∪)).
Qed.

Lemma list_files_ok l :
  list_files l
  = Ok (if bool_decide (protocol l = "file")
        then sorted (matched l (patterns l))
        else qualify (protocol l) <$> sorted (matched l (patterns l))).
Proof.
  unfold list_files. rewrite for_each_add_pattern. simpl.
  by rewrite (left_id_L ∅ (∪)).
Qed.

Lemma reset_eq l st :
  reset l st
  = set_cursor l
      (Some (if bool_decide (protocol l = "file")
             then sorted (matched l (patterns l))
             else qualify (protocol l)
                    <$> sorted (matched l (patterns l))))
      (match st with Some (mk_state (Some idx)) => idx | _ => 0 end).
Proof. unfold reset, reset_result. by rewrite list_files_ok. Qed.

Lemma reset_file_paths l st :
  _file_paths (reset l st)
  = Some (if bool_decide (protocol l = "file")
          then sorted (matched l (patterns l))
          else qualify (protocol l) <$> sorted (matched l (patterns l))).
Proof. by rewrite reset_eq. Qed.

Lemma sorted_Sorted X : Sorted str_le (sorted X).
Proof. apply Sorted_merge_sort, _. Qed.

Lemma sorted_NoDup X : NoDup (sorted X).
Proof.
  unfold sorted. rewrite merge_sort_Permutation. apply NoDup_elements.
Qed.

Lemma elem_of_sorted X x : x ∈ sorted X ↔ x ∈ X.
Proof.
  unfold sorted. rewrite merge_sort_Permutation. apply elem_of_elements.
Qed.

Lemma string_compare_app p s1 s2 :
  String.compare (p ++ s1) (p ++ s2) = String.compare s1 s2.
Proof.
  induction p as [|c p IH]; simpl; [done|].
  by rewrite ascii_compare_refl.
Qed.

Lemma string_app_inj p s1 s2 : p ++ s1 = p ++ s2 → s1 = s2.
Proof. induction p as [|c p IH]; simpl; [done|]. intros [= ?]. auto. Qed.

(** Prefixing the protocol keeps the list sorted and duplicate-free. *)
Lemma qualify_Sorted proto ps :
  Sorted str_le ps → Sorted str_le (qualify proto <$> ps).
Proof.
  apply Sorted_fmap. intros x y. unfold str_le, String.leb, qualify.
  by rewrite string_compare_app, (string_compare_app "://" x y).
Qed.

Lemma qualify_NoDup proto ps :
  NoDup ps → NoDup (qualify proto <$> ps).
Proof.
  apply NoDup_fmap_2. intros x y. unfold qualify.
  by intros ?%string_app_inj%(string_app_inj "://").
Qed.

(** Whatever order the set is iterated in, sorting gives one list. *)
Lemma sorted_unique X xs :
  xs ≡ₚ elements X → merge_sort str_le xs = sorted X.
Proof.
  intros Hp. apply (Sorted_unique str_le).
  - apply Sorted_merge_sort, _.
  - apply sorted_Sorted.
  - unfold sorted. by rewrite !merge_sort_Permutation.
Qed.

Lemma elem_of_matched l pats x :
  x ∈ matched l pats
  ↔ ∃ p ms, p ∈ pats ∧ glob_pattern l p = Ok ms ∧ x ∈ ms.
Proof.
  unfold matched. rewrite elem_of_union_list. split.
  - intros (X & HX & Hx). apply list_elem_of_fmap in HX as (p & -> & Hp).
    unfold pattern_matches in Hx.
    destruct (glob_pattern l p) as [ms|e] eqn:Hg; [|set_solver].
    exists p, ms. set_solver.
  - intros (p & ms & Hp & Hg & Hx). exists (pattern_matches l p).
    split; [apply list_elem_of_fmap; eauto|].
    unfold pattern_matches. rewrite Hg. set_solver.
Qed.

(** *** Two enumerations of one snapshot *)

Lemma filter_isfile_ok fs ms :
  Forall (λ m, ∃ b, isfile fs m = Ok b) ms →
  ∃ r, filter_isfile fs ms = Ok r
       ∧ ∀ x, x ∈ r ↔ x ∈ ms ∧ isfile fs x = Ok true.
Proof.
  induction 1 as [|m ms [b Hb] _ (r & Hr & Hin)]; simpl.
  - exists []. split; [done|]. intros x. rewrite elem_of_nil. tauto.
  - rewrite Hb, bind_Ok, Hr, bind_Ok.
    eexists. split; [done|]. intros x.
    destruct b; rewrite ?elem_of_cons, Hin; [|split].
    + split; [intros [->|[??]]; tauto | intros [[->|?] ?]; tauto].
    + tauto.
    + intros [[->|?] ?]; [congruence | tauto].
Qed.

Lemma filter_isfile_raise fs ms :
  Exists (λ m, ∃ e, isfile fs m = Raise e) ms →
  ∃ e, filter_isfile fs ms = Raise e.
Proof.
  induction 1 as [m ms [e He] | m ms _ [e He]]; simpl.
  - rewrite He. by exists e.
  - destruct (isfile fs m) as [b|e']; simpl; [|by eexists].
    rewrite He. by exists e.
Qed.

Lemma isfile_ok_or_raise fs ms :
  Forall (λ m, ∃ b, isfile fs m = Ok b) ms
  ∨ Exists (λ m, ∃ e, isfile fs m = Raise e) ms.
Proof.
  induction ms as [|m ms [IH|IH]].
  - left. constructor.
  - destruct (isfile fs m) as [b|e] eqn:Hm.
    + left. constructor; eauto.
    + right. apply Exists_cons_hd. eauto.
  - right. by apply Exists_cons_tl.
Qed.

Lemma filter_isfile_same fs1 fs2 ms1 ms2 :
  (∀ path, same_isfile (isfile fs1 path) (isfile fs2 path)) →
  (∀ x, x ∈ ms1 ↔ x ∈ ms2) →
  same_matches (filter_isfile fs1 ms1) (filter_isfile fs2 ms2).
Proof.
  intros Hf Hms.
  destruct (isfile_ok_or_raise fs1 ms1) as [Hall|Hex].
  - destruct (filter_isfile_ok fs1 ms1 Hall) as (r1 & -> & Hr1).
    assert (Hall2 : Forall (λ m, ∃ b, isfile fs2 m = Ok b) ms2).
    { apply Forall_forall. intros x Hx%Hms.
      rewrite Forall_forall in Hall. destruct (Hall x Hx) as [b Hb].
      specialize (Hf x). rewrite Hb in Hf.
      destruct (isfile fs2 x); [eauto | done]. }
    destruct (filter_isfile_ok fs2 ms2 Hall2) as (r2 & -> & Hr2).
    simpl. intros x. rewrite Hr1, Hr2, Hms.
    specialize (Hf x).
    destruct (isfile fs1 x) as [[]|], (isfile fs2 x) as [[]|];
      simpl in Hf; try done; split; intros [? ?]; done.
  - assert (Hex2 : Exists (λ m, ∃ e, isfile fs2 m = Raise e) ms2).
    { apply Exists_exists in Hex as (x & Hx & e & He).
      apply Exists_exists. exists x. split; [by apply Hms|].
      specialize (Hf x). rewrite He in Hf.
      destruct (isfile fs2 x); [done | eauto]. }
    destruct (filter_isfile_raise fs1 ms1 Hex) as [e1 ->].
    destruct (filter_isfile_raise fs2 ms2 Hex2) as [e2 ->]. done.
Qed.

Lemma glob_pattern_same l1 l2 p :
  uri_base l1 = uri_base l2 →
  same_snapshot (fs l1) (fs l2) →
  same_matches (glob_pattern l1 p) (glob_pattern l2 p).
Proof.
  intros Hb [Hg Hf]. unfold glob_pattern. rewrite Hb.
  specialize (Hg (path_join (uri_base l2) p)).
  destruct (glob (fs l1) _) as [ms1|e1], (glob (fs l2) _) as [ms2|e2];
    simpl in *; try done.
  destruct (_ || _); [by apply filter_isfile_same | done].
Qed.

Lemma matched_same l1 l2 pats :
  uri_base l1 = uri_base l2 →
  same_snapshot (fs l1) (fs l2) →
  matched l1 pats = matched l2 pats.
Proof.
  intros Hb Hs. unfold matched. f_equal.
  apply list_fmap_ext. intros _ p _. unfold pattern_matches.
  pose proof (glob_pattern_same l1 l2 p Hb Hs) as Hp.
  destruct (glob_pattern l1 p), (glob_pattern l2 p); simpl in Hp;
    try done.
  apply set_eq. intros x. by rewrite !elem_of_list_to_set.
Qed.

(** *** The lister as a source *)

Lemma lister_next_lookup l ps :
  _file_paths l = Some ps →
  next l
  = match ps !! _current_idx l with
    | Some path =>
        (Ok (Dict path
               (Some ({[ "fs_protocol" := VStr (protocol l);
                         "source" := VStr (protocol l) ]}))),
         set_cursor l (Some ps) (S (_current_idx l)))
    | None =>
        (Raise (StopIteration
                  (match ps with
                   | [] => "No matching files found"
                   | _ => "No more files"
                   end)), l)
    end.
Proof.
  intros Hps. unfold FileLister.next. rewrite Hps.
  destruct ps as [|p0 ps]; [done|].
  by destruct ((p0 :: ps) !! _current_idx l).
Qed.

Lemma lister_yields l ps idx :
  yields (set_cursor l (Some ps) idx)
    ((λ path, Dict path
                (Some ({[ "fs_protocol" := VStr (protocol l);
                          "source" := VStr (protocol l) ]})))
       <$> drop idx ps).
Proof.
  remember (length ps - idx) as n eqn:Hn.
  revert idx Hn. induction n as [|n IH]; intros idx Hn.
  - rewrite drop_ge by lia. eapply yields_stop.
    rewrite lister_next_eq.
    rewrite (lister_next_lookup (set_cursor l (Some ps) idx) ps eq_refl).
    simpl. by rewrite lookup_ge_None_2 by lia.
  - destruct (ps !! idx) as [path|] eqn:Hp.
    + rewrite (drop_S _ _ _ Hp). simpl. eapply yields_item.
      * rewrite lister_next_eq.
        rewrite (lister_next_lookup (set_cursor l (Some ps) idx) ps
                   eq_refl).
        simpl. by rewrite Hp.
      * apply (IH (S idx)). lia.
    + apply lookup_ge_None in Hp. lia.
Qed.

Lemma lister_run l ps idx k :
  ∃ idx', run (set_cursor l (Some ps) idx) k
          = set_cursor l (Some ps) idx'.
Proof.
  revert idx. induction k as [|k IH]; intros idx; [by exists idx|].
  cbn [run]. rewrite lister_next_eq.
  rewrite (lister_next_lookup (set_cursor l (Some ps) idx) ps eq_refl).
  simpl. destruct (ps !! idx); simpl; [apply (IH (S idx)) | apply IH].
Qed.

(** A lister is resumable. *)
Lemma lister_resumable l : resumable l.
Proof.
  intros k. unfold fresh_run. rewrite !lister_reset_eq, !reset_eq.
  match goal with
  | |- context [run (set_cursor l (Some ?ps) 0) k] =>
      destruct (lister_run l ps 0 k) as [idx' ->]
  end.
  by rewrite lister_get_state_eq.
Qed.

End ListerFacts.

(** C7 (failure policy of the lister).  [reset] never raises.  A pattern
    whose enumeration fails adds nothing and the loop goes on with the
    remaining patterns, so the list holds exactly the matches of the
    patterns that could be enumerated.  When every pattern fails, the
    list is empty and [next] signals the end of the sequence. *)
Theorem lister_reset_never_raises (l : FileLister.t)
    (st : option FileLister.state) :
  (∃ l', FileLister.reset_result l st = Ok l' ∧ FileLister.reset l st = l')
  ∧ (∀ p ps acc e,
       FileLister.glob_pattern l p = Raise e →
       for_each (FileLister.add_pattern l) (p :: ps) acc
       = for_each (FileLister.add_pattern l) ps acc)
  ∧ (∃ ps,
       (∀ x, x ∈ ps
             ↔ ∃ p ms, p ∈ FileLister.patterns l
                       ∧ FileLister.glob_pattern l p = Ok ms ∧ x ∈ ms)
       ∧ FileLister._file_paths (FileLister.reset l st)
         = Some (if bool_decide (FileLister.protocol l = "file") then ps
                 else FileLister.qualify (FileLister.protocol l) <$> ps))
  ∧ ((∀ p, p ∈ FileLister.patterns l →
           ∃ e, FileLister.glob_pattern l p = Raise e) →
     FileLister._file_paths (FileLister.reset l st) = Some []
     ∧ ∃ msg, FileLister.next (FileLister.reset l st)
              = (Raise (StopIteration msg), FileLister.reset l st)).
Proof.
  split; [|split; [|split]].
  - unfold FileLister.reset, FileLister.reset_result.
    rewrite list_files_ok. eexists. split; reflexivity.
  - intros p ps acc e Hp. cbn [for_each].
    rewrite add_pattern_eq, bind_Ok. unfold FileLister.pattern_matches.
    rewrite Hp. by rewrite (right_id_L ∅ (∪)).
  - exists (FileLister.sorted (FileLister.matched l (FileLister.patterns l))).
    split; [|apply reset_file_paths].
    intros x. by rewrite elem_of_sorted, elem_of_matched.
  - intros Hfail.
    assert (Hempty :
      FileLister.sorted (FileLister.matched l (FileLister.patterns l)) = []).
    { apply elem_of_nil_inv. intros x.
      rewrite elem_of_sorted, elem_of_matched.
      intros (p & ms & Hp & Hg & _).
      destruct (Hfail p Hp) as [e He]. congruence. }
    assert (Hpaths :
      FileLister._file_paths (FileLister.reset l st) = Some []).
    { rewrite reset_file_paths, Hempty. by destruct (bool_decide _). }
    split; [done|].
    unfold FileLister.next. rewrite Hpaths. eauto.
Qed.

(** C9 (determinism of the listing).  Two listers with the same base
    URI, patterns and protocol, over filesystem objects presenting the
    same contents (the same matches, in whatever order or multiplicity
    [glob] returns them), compute the same list: the matches of all the
    patterns, without duplicates and sorted, left as they are when the
    protocol is ["file"] and otherwise each prefixed with the protocol
    and ["://"]; the list they hold is itself sorted and without
    duplicates, and they emit the same items. *)
Theorem lister_deterministic (l1 l2 : FileLister.t)
    (st1 st2 : option FileLister.state) :
  FileLister.uri_base l1 = FileLister.uri_base l2 →
  FileLister.patterns l1 = FileLister.patterns l2 →
  FileLister.protocol l1 = FileLister.protocol l2 →
  FileLister.same_snapshot (FileLister.fs l1) (FileLister.fs l2) →
  ∃ ps,
    Sorted str_le ps ∧ NoDup ps
    ∧ (∀ x, x ∈ ps
            ↔ ∃ p ms, p ∈ FileLister.patterns l1
                      ∧ FileLister.glob_pattern l1 p = Ok ms ∧ x ∈ ms)
    ∧ (FileLister.protocol l1 = "file" →
       FileLister._file_paths (FileLister.reset l1 st1) = Some ps)
    ∧ (FileLister.protocol l1 ≠ "file" →
       FileLister._file_paths (FileLister.reset l1 st1)
       = Some ((λ path, FileLister.protocol l1 ++ "://" ++ path) <$> ps))
    ∧ FileLister._file_paths (FileLister.reset l2 st2)
      = FileLister._file_paths (FileLister.reset l1 st1)
    ∧ (∀ file_paths,
         FileLister._file_paths (FileLister.reset l1 st1) = Some file_paths →
         Sorted str_le file_paths ∧ NoDup file_paths)
    ∧ ∃ items,
        yields (reset l1 None) items ∧ yields (reset l2 None) items
        ∧ Some (item_data <$> items)
          = FileLister._file_paths (FileLister.reset l1 st1).
Proof.
  intros Hb Hp Hpr Hs.
  exists (FileLister.sorted (FileLister.matched l1 (FileLister.patterns l1))).
  split; [apply sorted_Sorted|]. split; [apply sorted_NoDup|].
  split; [intros x; by rewrite elem_of_sorted, elem_of_matched|].
  split.
  { intros Hfile. rewrite reset_file_paths.
    by rewrite bool_decide_eq_true_2. }
  split.
  { intros Hfile. rewrite reset_file_paths.
    by rewrite bool_decide_eq_false_2. }
  split.
  { rewrite !reset_file_paths.
    by rewrite <- Hp, <- Hpr, (matched_same l1 l2 _ Hb Hs). }
  split.
  { intros fps. rewrite reset_file_paths. intros [= <-].
    case_bool_decide.
    - split; [apply sorted_Sorted | apply sorted_NoDup].
    - split; [apply qualify_Sorted, sorted_Sorted
             | apply qualify_NoDup, sorted_NoDup]. }
  rewrite reset_file_paths, !lister_reset_eq, !reset_eq.
  rewrite <- Hp, <- Hpr, <- (matched_same l1 l2 _ Hb Hs).
  eexists. split; [apply lister_yields|].
  split; [rewrite Hpr; apply lister_yields|].
  rewrite drop_0, <- list_fmap_compose. f_equal.
  apply list_fmap_id.
Qed.

(** ** Resuming a source *)

(** Resume equivalence for a resumable node: after [k] calls, a fresh
    instance reset from the checkpoint returns what the next call of
    the uninterrupted run returns. *)
Lemma resume_equivalence {Node Ckpt} `{!BaseNode Node Ckpt} (fresh : Node) :
  resumable fresh →
  ∀ k, (next (reset fresh (Some (get_state (fresh_run fresh k))))).1
       = (next (fresh_run fresh k)).1.
Proof. intros Hr k. by rewrite Hr. Qed.

Lemma mock_run n k :
  ∃ idx, run n k
         = MockSourceNode.mk (MockSourceNode.file_paths n)
             (MockSourceNode.metadata_ n) idx.
Proof.
  revert n. induction k as [|k IH]; intros n.
  - exists (MockSourceNode._current_idx n). by destruct n.
  - cbn [run]. destruct (IH (next n).2) as [idx ->].
    exists idx. simpl. unfold MockSourceNode.next.
    by destruct (_ !! _).
Qed.

Lemma mock_resumable (n : MockSourceNode.t) : resumable n.
Proof.
  intros k. unfold fresh_run.
  destruct (mock_run (reset n None) k) as [idx ->].
  reflexivity.
Qed.

(** ** FileReader *)

Section ReaderFacts.

Context {Node Ckpt : Type} `{!BaseNode Node Ckpt}.
Variable smart_open : opener.

Local Abbreviation reader_next := (FileReader.next smart_open).
Local Abbreviation read_file := (FileReader.read_file smart_open).

Lemma reader_next_node (r : FileReader.t Node) :
  (reader_next r).2 = FileReader.set_source r (next (FileReader.source r)).2.
Proof.
  unfold FileReader.next.
  destruct (next (FileReader.source r)) as [[[u|u meta]|e] s']; simpl;
    [done| |done].
  by destruct (read_file r u).
Qed.

(** A failure of [open] or of [read] is raised unchanged, and the
    source keeps the position it reached by the pull. *)
Lemma reader_reraises (r : FileReader.t Node) uri meta s' e :
  next (FileReader.source r) = (Ok (Dict uri meta), s') →
  read_file r uri = Raise e →
  reader_next r = (Raise e, FileReader.set_source r s').
Proof.
  intros Hs Hr. unfold FileReader.next. by rewrite Hs, Hr.
Qed.

Lemma read_file_raise (r : FileReader.t Node) uri e :
  read_file r uri = Raise e
  ↔ smart_open uri (FileReader.mode r)
      (if str_contains "b" (FileReader.mode r) then None
       else FileReader.encoding r)
      (FileReader.transport_params r) = Raise e
    ∨ ∃ h, smart_open uri (FileReader.mode r)
             (if str_contains "b" (FileReader.mode r) then None
              else FileReader.encoding r)
             (FileReader.transport_params r) = Ok h
           ∧ read h = Raise e.
Proof.
  unfold FileReader.read_file.
  destruct (smart_open _ _ _ _) as [h|e']; split.
  - intros Hr. right. eauto.
  - intros [?|(h' & [= <-] & Hr)]; done.
  - intros [= ->]. by left.
  - intros [[= ->]|(h' & ? & _)]; done.
Qed.

Lemma read_file_complete (r : FileReader.t Node) uri content :
  read_file r uri = Ok content →
  ∃ h, smart_open uri (FileReader.mode r)
         (if str_contains "b" (FileReader.mode r) then None
          else FileReader.encoding r)
         (FileReader.transport_params r) = Ok h
       ∧ h_end h = EOF ∧ content = h_data h.
Proof.
  unfold FileReader.read_file, read.
  destruct (smart_open _ _ _ _) as [h|e']; [|done].
  destruct (h_end h) eqn:He; [|done].
  intros [= <-]. eauto.
Qed.

(** On success the whole content is returned, every upstream key is
    in the metadata with the upstream value, and ["file_path"] is the
    URI when the upstream metadata has no such key. *)
Lemma reader_success (r : FileReader.t Node) uri meta s' content :
  next (FileReader.source r) = (Ok (Dict uri meta), s') →
  read_file r uri = Ok content →
  ∃ md,
    reader_next r
    = (Ok (Dict content (Some md)), FileReader.set_source r s')
    ∧ (∀ k v, default ∅ meta !! k = Some v → md !! k = Some v)
    ∧ (default ∅ meta !! "file_path" = None →
       md !! "file_path" = Some (VStr uri))
    ∧ is_Some (md !! "file_path").
Proof.
  intros Hs Hr. unfold FileReader.next. rewrite Hs, Hr.
  eexists. split; [reflexivity|].
  case_decide as Hmd.
  - rewrite Hmd. split; [intros k v; by rewrite lookup_empty|].
    split; [intros _|eexists]; by simplify_map_eq.
  - unfold dict_update. split; [|split].
    + intros k v Hk. by apply lookup_union_Some_l.
    + intros Hnone. rewrite lookup_union_r by done. by simplify_map_eq.
    + apply lookup_union_is_Some. right. eexists. by simplify_map_eq.
Qed.

(** C10 (a failed read has consumed its item).  When [next] raises
    because the file could not be opened or read, the source has
    moved past the failed item: the checkpoint taken afterwards is
    the one of the source after that pull, and the following [next]
    pulls from there. *)
Theorem reader_failure_advances_source (r : FileReader.t Node)
    uri meta s' e :
  next (FileReader.source r) = (Ok (Dict uri meta), s') →
  read_file r uri = Raise e →
  ∃ r',
    reader_next r = (Raise e, r')
    ∧ FileReader.source r' = s'
    ∧ FileReader.get_state r' = FileReader.mk_state (Some (get_state s'))
    ∧ ∀ it s'',
        next s' = (it, s'') →
        FileReader.source (reader_next r').2 = s''
        ∧ (∀ uri2 meta2 content,
             it = Ok (Dict uri2 meta2) →
             read_file r uri2 = Ok content →
             ∃ md, (reader_next r').1 = Ok (Dict content (Some md))).
Proof.
  intros Hs Hr. exists (FileReader.set_source r s').
  split; [by apply (reader_reraises r uri meta)|].
  split; [done|]. split; [done|].
  intros it s'' Hs'. split.
  - by rewrite reader_next_node; simpl; rewrite Hs'.
  - intros uri2 meta2 content -> Hr2.
    destruct (reader_success (FileReader.set_source r s') uri2 meta2 s''
                content Hs' Hr2) as (md & -> & _).
    by exists md.
Qed.

Lemma reader_run (r : FileReader.t Node) k :
  run (BaseNode0 := FileReader_node smart_open) r k
  = FileReader.set_source r (run (FileReader.source r) k).
Proof.
  revert r. induction k as [|k IH]; intros r; [by destruct r|].
  cbn [run]. rewrite IH. simpl. by rewrite reader_next_node.
Qed.

(** A reader over a resumable source is resumable. *)
Lemma reader_resumable (r : FileReader.t Node) :
  resumable (FileReader.source r) →
  resumable (BaseNode0 := FileReader_node smart_open) r.
Proof.
  intros Hr k. unfold fresh_run. rewrite reader_run. simpl.
  unfold FileReader.reset, FileReader.get_state. simpl.
  fold (fresh_run (FileReader.source r) k). by rewrite (Hr k).
Qed.

End ReaderFacts.

(** ** Metadata of the emitted items *)

Section LineItem.

Import TextStreamingDecoder.

(** Every upstream key is in the emitted metadata, with the upstream
    value. *)
Lemma line_item_upstream f md i l k v :
  md !! k = Some v → item_metadata (line_item f md i l) !! k = Some v.
Proof.
  intros Hk. unfold line_item. simpl. case_decide as Hmd.
  - rewrite Hmd in Hk. by rewrite lookup_empty in Hk.
  - unfold dict_update. by apply lookup_union_Some_l.
Qed.

(** Without an upstream ["item_idx"], the emitted one is the line
    index. *)
Lemma line_item_item_idx f md i l :
  md !! "item_idx" = None →
  item_metadata (line_item f md i l) !! "item_idx"
  = Some (VInt (Z.of_nat i)).
Proof.
  intros Hk. unfold line_item. simpl. case_decide as Hmd.
  - by simplify_map_eq.
  - unfold dict_update. rewrite lookup_union_r by done.
    by simplify_map_eq.
Qed.

(** Without an upstream ["file_path"], the emitted one is the file
    being read. *)
Lemma line_item_file_path f md i l :
  md !! "file_path" = None →
  item_metadata (line_item f md i l) !! "file_path"
  = Some (from_option VStr VNone f).
Proof.
  intros Hk. unfold line_item. simpl. case_decide as Hmd.
  - by simplify_map_eq.
  - unfold dict_update. rewrite lookup_union_r by done.
    by simplify_map_eq.
Qed.

Lemma line_item_data f md i l :
  item_data (line_item f md i l) = rstrip_nl l.
Proof. reflexivity. Qed.

(** Line indexing when the upstream metadata has no ["item_idx"]: the
    [k] lines of a file give [k] items, the [j]-th carrying the stripped
    [j]-th line and the index [j]. *)
Lemma number_lines_indexing f md ls :
  md !! "item_idx" = None →
  length (number_lines f md 0 ls) = length ls
  ∧ ∀ j l, ls !! j = Some l →
      ∃ it, number_lines f md 0 ls !! j = Some it
            ∧ item_data it = rstrip_nl l
            ∧ item_metadata it !! "item_idx" = Some (VInt (Z.of_nat j)).
Proof.
  intros Hmd. split.
  - generalize 0. induction ls as [|l ls IH]; intros i; simpl; [done|].
    by rewrite IH.
  - intros j l Hl. exists (line_item f md j l). split; [|split].
    + assert (Hgen : ∀ i ls j, ls !! j = Some l →
                number_lines f md i ls !! j
                = Some (line_item f md (i + j) l)).
      { clear. intros i ls. revert i.
        induction ls as [|l' ls IH]; intros i [|j]; simpl; try done.
        - intros [= ->]. by rewrite Nat.add_0_r.
        - intros Hj. rewrite (IH (S i) j Hj). do 2 f_equal. lia. }
      by rewrite (Hgen 0 ls j Hl).
    + reflexivity.
    + by apply line_item_item_idx.
Qed.

End LineItem.

(** ** Checkpoints of the decoder *)

(** [get_state] never stores the source metadata. *)
Lemma tsd_get_state_no_metadata {Node Ckpt} `{!BaseNode Node Ckpt}
    (d : TextStreamingDecoder.t Node) :
  TextStreamingDecoder.st_metadata (TextStreamingDecoder.get_state d) = None.
Proof. reflexivity. Qed.

(** C1 (resume equivalence), on the decoder.  Over the source
    [MockSourceNode(["a.txt", "b.txt"], {"source": "local"})], after one
    call of [next] the uninterrupted run returns line [y] with the
    source metadata, while a fresh decoder reset from the checkpoint
    returns line [y] without it. *)
Theorem tsd_resume_drops_source_metadata :
  let fresh :=
    TextStreamingDecoder.init
      (MockSourceNode.init ["a.txt"; "b.txt"] {[ "source" := VStr "local" ]})
      "r" (Some "utf-8") ∅ in
  let d := tsd_after two_files fresh 1 in
  let resumed :=
    TextStreamingDecoder.reset two_files fresh
      (Some (TextStreamingDecoder.get_state d)) in
  resumed.1 = Ok ()
  ∧ tsd_next_item two_files d
    = Some (Dict "y"
              (Some {[ "file_path" := VStr "a.txt"; "item_idx" := VInt 1;
                       "source" := VStr "local" ]}))
  ∧ tsd_next_item two_files resumed.2
    = Some (Dict "y"
              (Some {[ "file_path" := VStr "a.txt";
                       "item_idx" := VInt 1 ]}))
  ∧ tsd_next_item two_files resumed.2 ≠ tsd_next_item two_files d.
Proof.
  repeat split; try (vm_compute; reflexivity).
  vm_compute. discriminate.
Qed.

(** C2 (content of the checkpoint).  In the same run the checkpoint
    holds the source state, the current file and the line count, and
    [reset] restores them, but it holds no metadata: the resumed node
    has empty source metadata where the checkpointed one had
    [{"source": "local"}]. *)
Theorem tsd_checkpoint_omits_metadata :
  let fresh :=
    TextStreamingDecoder.init
      (MockSourceNode.init ["a.txt"; "b.txt"] {[ "source" := VStr "local" ]})
      "r" (Some "utf-8") ∅ in
  let d := tsd_after two_files fresh 1 in
  let ck := TextStreamingDecoder.get_state d in
  let resumed := (TextStreamingDecoder.reset two_files fresh (Some ck)).2 in
  TextStreamingDecoder.st_source ck
  = get_state (TextStreamingDecoder.source d)
  ∧ TextStreamingDecoder.st_current_file ck = Some "a.txt"
  ∧ TextStreamingDecoder.st_current_line ck = Some 1
  ∧ TextStreamingDecoder.st_metadata ck = None
  ∧ TextStreamingDecoder.source resumed = TextStreamingDecoder.source d
  ∧ TextStreamingDecoder._current_file resumed
    = TextStreamingDecoder._current_file d
  ∧ TextStreamingDecoder._current_line resumed
    = TextStreamingDecoder._current_line d
  ∧ TextStreamingDecoder._source_metadata d = {[ "source" := VStr "local" ]}
  ∧ TextStreamingDecoder._source_metadata resumed = ∅.
Proof. repeat split; vm_compute; reflexivity. Qed.

(** C3 (metadata merge).  When the upstream metadata has the keys
    ["file_path"] and ["item_idx"], the reader and the decoder emit the
    upstream values, not their own. *)
Theorem metadata_merge_upstream_wins :
  let upstream : metadata :=
    {[ "file_path" := VStr "elsewhere.txt"; "item_idx" := VInt 7 ]} in
  let src := MockSourceNode.init ["a.txt"] upstream in
  (FileReader.next two_files
     (FileReader.init (reset src None) "r" (Some "utf-8") ∅)).1
  = Ok (Dict ("x" ++ newline ++ "y" ++ newline) (Some upstream))
  ∧ tsd_next_item two_files
      (tsd_after two_files
         (TextStreamingDecoder.init src "r" (Some "utf-8") ∅) 0)
    = Some (Dict "x" (Some upstream)).
Proof. split; vm_compute; reflexivity. Qed.

(** C5 (reader: errors and content).  The file opens and is read in
    full, but with an upstream ["file_path"] the emitted ["file_path"]
    is the upstream value and not the URI that was read. *)
Theorem reader_file_path_not_uri :
  let src :=
    MockSourceNode.init ["b.txt"] {[ "file_path" := VStr "other.txt" ]} in
  ∃ md,
    (FileReader.next two_files
       (FileReader.init (reset src None) "r" (Some "utf-8") ∅)).1
    = Ok (Dict ("z" ++ newline) (Some md))
    ∧ md !! "file_path" = Some (VStr "other.txt")
    ∧ md !! "file_path" ≠ Some (VStr "b.txt").
Proof.
  eexists. split; [vm_compute; reflexivity|].
  split; [vm_compute; reflexivity | vm_compute; discriminate].
Qed.

(** C6 (line indexing).  With an upstream ["item_idx"], the three lines
    of [a.txt] and [b.txt] all carry the upstream value instead of
    0, 1 and 0. *)
Theorem tsd_item_idx_overridden :
  let src := MockSourceNode.init ["a.txt"; "b.txt"] {[ "item_idx" := VInt 7 ]} in
  let d := tsd_after two_files
             (TextStreamingDecoder.init src "r" (Some "utf-8") ∅) 0 in
  tsd_drained two_files d
  = Some [("x", Some (VInt 7)); ("y", Some (VInt 7)); ("z", Some (VInt 7))].
Proof. vm_compute. reflexivity. Qed.

(** C4 (skip on bad file).  In the binary configuration that
    [__init__] documents (mode ["rb"], no encoding), over a URI that
    fails to open followed by a readable one, the decoder emits nothing
    before the end-of-sequence signal, although the readable file
    holds a line: the first call of [next] reads that line, counts it
    and drops it with the file. *)
Theorem tsd_binary_mode_emits_nothing :
  let src := MockSourceNode.init ["nonexistent.txt"; "valid.txt"] ∅ in
  let fresh := TextStreamingDecoder.init src "rb" None ∅ in
  yields src [Dict "nonexistent.txt" (Some ∅); Dict "valid.txt" (Some ∅)]
  ∧ TextStreamingDecoder.readable_lines
      (λ uri, one_valid_file uri "rb" None ∅)
      [Dict "nonexistent.txt" (Some ∅); Dict "valid.txt" (Some ∅)]
    = ["valid content"]
  ∧ TextStreamingDecoder.drain one_valid_file 8 8
      (tsd_after one_valid_file fresh 0)
    = Some ([], StopIteration "No more files")
  ∧ TextStreamingDecoder.get_state (tsd_after one_valid_file fresh 1)
    = TextStreamingDecoder.mk_state (MockSourceNode.mk_state (Some 2))
        (Some "valid.txt") (Some 1) None.
Proof.
  split; [yields_by_eval|]. repeat split; vm_compute; reflexivity.
Qed.

(** ** Instances of the theorems *)

Lemma fs_one_two_same_snapshot : FileLister.same_snapshot fs_one fs_two.
Proof.
  split; intros path; simpl; [|done].
  destruct (String.eqb path "data/*.txt"); simpl; [|done].
  intros x. rewrite !elem_of_cons, !elem_of_nil. tauto.
Defined.

Lemma s3_one_two_same_snapshot : FileLister.same_snapshot s3_one s3_two.
Proof.
  split; intros path; simpl; [|done].
  destruct (String.eqb path "s3://bucket/*.txt"); simpl; [|done].
  intros x. rewrite !elem_of_cons, !elem_of_nil. tauto.
Defined.

Lemma lister_deterministic_witness :
  (FileLister.same_snapshot s3_one s3_two
   ∧ FileLister.protocol (s3_lister_over s3_one ["*.txt"; "*.json"]) = "s3"
   ∧ FileLister._file_paths
       (FileLister.reset (s3_lister_over s3_two ["*.txt"; "*.json"]) None)
     = FileLister._file_paths
         (FileLister.reset (s3_lister_over s3_one ["*.txt"; "*.json"]) None)
   ∧ FileLister._file_paths
       (FileLister.reset (s3_lister_over s3_one ["*.txt"; "*.json"]) None)
     = Some ["s3://bucket/a.txt"; "s3://bucket/b.txt"])
  ∧ (FileLister.same_snapshot fs_one fs_two
     ∧ FileLister.protocol (lister_over fs_one ["*.txt"; "*.json"]) = "file"
     ∧ FileLister._file_paths
         (FileLister.reset (lister_over fs_two ["*.txt"; "*.json"]) None)
       = FileLister._file_paths
           (FileLister.reset (lister_over fs_one ["*.txt"; "*.json"]) None)
     ∧ FileLister._file_paths
         (FileLister.reset (lister_over fs_one ["*.txt"; "*.json"]) None)
       = Some ["data/a.txt"; "data/b.txt"]).
Proof.
  split.
  - split; [exact s3_one_two_same_snapshot|]. split; [reflexivity|].
    destruct (lister_deterministic
                (s3_lister_over s3_one ["*.txt"; "*.json"])
                (s3_lister_over s3_two ["*.txt"; "*.json"]) None None
                eq_refl eq_refl eq_refl s3_one_two_same_snapshot)
      as (ps & _ & _ & _ & _ & _ & Heq & _ & _).
    split; [exact Heq | vm_compute; reflexivity].
  - split; [exact fs_one_two_same_snapshot|]. split; [reflexivity|].
    destruct (lister_deterministic
                (lister_over fs_one ["*.txt"; "*.json"])
                (lister_over fs_two ["*.txt"; "*.json"]) None None
                eq_refl eq_refl eq_refl fs_one_two_same_snapshot)
      as (ps & _ & _ & _ & _ & _ & Heq & _ & _).
    split; [exact Heq | vm_compute; reflexivity].
Defined.

(** The pattern [*.json] cannot be enumerated: the listing holds the
    matches of [*.txt], and [next] returns them in order. *)
Example lister_partial_failure :
  let l := FileLister.reset (lister_over fs_one ["*.json"; "*.txt"]) None in
  FileLister.glob_pattern l "*.json" = Raise (Exception "connection reset")
  ∧ FileLister._file_paths l = Some ["data/a.txt"; "data/b.txt"]
  ∧ (next l).1
    = Ok (Dict "data/a.txt"
            (Some {[ "fs_protocol" := VStr "file";
                     "source" := VStr "file" ]}))
  ∧ (next (run l 1)).1
    = Ok (Dict "data/b.txt"
            (Some {[ "fs_protocol" := VStr "file";
                     "source" := VStr "file" ]}))
  ∧ (next (run l 2)).1 = Raise (StopIteration "No more files").
Proof. repeat split; vm_compute; reflexivity. Qed.

Lemma reader_failure_advances_source_witness :
  let r :=
    FileReader.init
      (reset (MockSourceNode.init ["missing.txt"; "b.txt"] ∅) None)
      "r" (Some "utf-8") ∅ in
  FileReader.read_file two_files r "missing.txt"
  = Raise (Exception "No such file or directory")
  ∧ ∃ r',
      FileReader.next two_files r
      = (Raise (Exception "No such file or directory"), r')
      ∧ FileReader.get_state r'
        = FileReader.mk_state (Some (MockSourceNode.mk_state (Some 1)))
      ∧ ∃ md, (FileReader.next two_files r').1
              = Ok (Dict ("z" ++ newline) (Some md)).
Proof.
  intros r.
  assert (Hr : FileReader.read_file two_files r "missing.txt"
               = Raise (Exception "No such file or directory"))
    by reflexivity.
  split; [exact Hr|].
  assert (Hs : next (FileReader.source r)
               = (Ok (Dict "missing.txt" (Some ∅)),
                  MockSourceNode.mk ["missing.txt"; "b.txt"] ∅ 1))
    by (vm_compute; reflexivity).
  destruct (reader_failure_advances_source two_files r "missing.txt"
              (Some ∅) (MockSourceNode.mk ["missing.txt"; "b.txt"] ∅ 1) _
              Hs Hr)
    as (r' & Hn & Hsrc & Hst & Hnext).
  exists r'. split; [exact Hn|]. split; [exact Hst|].
  assert (Hs' : next (MockSourceNode.mk ["missing.txt"; "b.txt"] ∅ 1)
                = (Ok (Dict "b.txt" (Some ∅)),
                   MockSourceNode.mk ["missing.txt"; "b.txt"] ∅ 2))
    by (vm_compute; reflexivity).
  destruct (Hnext _ _ Hs') as [_ Hcontent].
  apply (Hcontent "b.txt" (Some ∅) ("z" ++ newline)); reflexivity.
Defined.

(** ** TextStreamingDecoder: resuming *)

Section DecoderResume.

Import TextStreamingDecoder.

Context {Node Ckpt : Type} `{!BaseNode Node Ckpt}.
Variable smart_open : opener.
Variables (src0 : Node) (m : string) (enc : option string) (tp : metadata).

Local Abbreviation inv := (run_inv smart_open src0 m enc tp).

Lemma run_snoc (n : Node) k : run n (S k) = (next (run n k)).2.
Proof.
  revert n. induction k as [|k IH]; intros n; [done|].
  change (run n (S (S k))) with (run (next n).2 (S k)). by rewrite IH.
Qed.

Lemma skip_lines_snoc n h0 h l h' :
  skip_lines n h0 = Ok h → readline h = (Ok l, h') → l ≠ EmptyString →
  skip_lines (S n) h0 = Ok h'.
Proof.
  revert h0. induction n as [|n IH]; intros h0 Hs Hr Hl.
  - injection Hs as ->. simpl. unfold handle_next. rewrite Hr.
    by destruct l.
  - cbn [skip_lines] in Hs |- *.
    destruct (handle_next h0) as [[l0|e] h1]; [|done]. by apply IH.
Qed.

Lemma run_inv_get_next_file d r d' :
  inv d → _get_next_file smart_open d = (r, d') → inv d'.
Proof.
  intros (Hm & He & Ht & [j Hj] & Hp). unfold _get_next_file.
  destruct (next (source d)) as [[it|e] s'] eqn:Hs.
  - assert (Hsrc : s' = fresh_run src0 (S j)).
    { unfold fresh_run in *. by rewrite run_snoc, <- Hj, Hs. }
    destruct it as [u|u [mu|]]; simpl; unfold open_file; simpl;
      destruct (smart_open u _ _ _) as [h|e] eqn:Ho; intros [= <- <-];
      (split; [done|]); (split; [done|]); (split; [done|]);
      (split; [by exists (S j)|]); unfold positioned; simpl; try done;
      exists u, h; unfold open_file; simpl; by rewrite Ho.
  - intros [= <- <-]. repeat split; try done.
    exists (S j). unfold fresh_run in *. cbn [source set_source].
    by rewrite run_snoc, <- Hj, Hs.
Qed.

Lemma run_inv_get_next_line d o d' :
  inv d → _get_next_line d = (o, d') → inv d'.
Proof.
  intros (Hm & He & Ht & Hj & Hp). unfold _get_next_line.
  unfold positioned in Hp.
  destruct (_file_handle d) as [h|] eqn:Hh.
  - destruct Hp as (f & h0 & Hf & Ho & Hs).
    destruct (readline h) as [[l|e] h'] eqn:Hr.
    + case_bool_decide as Hl;
        [intros [= <- <-]; repeat split; done|].
      destruct (binary_stream (mode d) (encoding d));
        intros [= <- <-]; repeat split; try done.
      exists f, h0. repeat split; try done.
      simpl. by apply (skip_lines_snoc _ _ h l).
    + intros [= <- <-]. repeat split; done.
  - intros [= <- <-]. repeat split; try done.
    unfold positioned. by rewrite Hh.
Qed.

Lemma run_inv_next_fuel F d r d' :
  inv d → next_fuel smart_open F d = Some (r, d') → inv d'.
Proof.
  revert d. induction F as [|F IH]; intros d Hd; [done|]. simpl.
  destruct (_file_handle d).
  - destruct (_get_next_line d) as [[it|] d1] eqn:Hl.
    + intros [= <- <-]. by apply (run_inv_get_next_line d _ _ Hd Hl).
    + apply IH. by apply (run_inv_get_next_line d _ _ Hd Hl).
  - destruct (_get_next_file smart_open d) as [[b|e] d1] eqn:Hf.
    + apply IH. by apply (run_inv_get_next_file d _ _ Hd Hf).
    + intros [= <- <-]. by apply (run_inv_get_next_file d _ _ Hd Hf).
Qed.

Lemma run_inv_reset :
  inv (TextStreamingDecoder.reset smart_open (init src0 m enc tp) None).2.
Proof. repeat split; try done. by exists 0. Qed.

Lemma run_inv_run_fuel F k d d' :
  inv d → run_fuel smart_open F k d = Some d' → inv d'.
Proof.
  revert d. induction k as [|k IH]; intros d Hd; simpl.
  - by intros [= <-].
  - destruct (next_fuel smart_open F d) as [[r d1]|] eqn:Hn; [|done].
    apply IH. by apply (run_inv_next_fuel F d r d1).
Qed.

(** A checkpoint taken while a file is open (or before any file was
    pulled) and while the source metadata is empty restores the node. *)
Lemma tsd_reset_restores d :
  resumable src0 → inv d →
  _source_metadata d = ∅ →
  (_file_handle d = None → _current_file d = None) →
  TextStreamingDecoder.reset smart_open (init src0 m enc tp)
    (Some (TextStreamingDecoder.get_state d))
  = (Ok (), d).
Proof.
  intros Hres (Hm & He & Ht & [j Hj] & Hp) Hmd Hcf.
  destruct d as [s m' enc' tp' cf cl fh md]. simpl in *. subst.
  unfold TextStreamingDecoder.reset, TextStreamingDecoder.get_state.
  simpl. rewrite (Hres j). unfold positioned in Hp. simpl in Hp.
  destruct fh as [h|].
  - destruct Hp as (f & h0 & -> & Ho & Hs). unfold open_file in *.
    simpl in *. by rewrite Ho, Hs.
  - by rewrite (Hcf eq_refl).
Qed.

(** Resume equivalence of the decoder in that case: after [k] calls, a
    fresh decoder reset from the checkpoint continues as the
    uninterrupted run does. *)
Lemma tsd_resume_equivalence F k d :
  resumable src0 →
  run_fuel smart_open F k
    (TextStreamingDecoder.reset smart_open (init src0 m enc tp) None).2
  = Some d →
  _source_metadata d = ∅ →
  (_file_handle d = None → _current_file d = None) →
  ∃ resumed,
    TextStreamingDecoder.reset smart_open (init src0 m enc tp)
      (Some (TextStreamingDecoder.get_state d)) = (Ok (), resumed)
    ∧ ∀ F', next_fuel smart_open F' resumed = next_fuel smart_open F' d.
Proof.
  intros Hres Hrun Hmd Hcf. exists d. split; [|done].
  apply tsd_reset_restores; try done.
  by apply (run_inv_run_fuel F k _ d run_inv_reset).
Qed.

End DecoderResume.

(** The resume test of the repository: without source metadata, a
    decoder reset from the checkpoint taken after the first line
    continues with the second line of the same file. *)
Example tsd_resume_mid_file :
  let fresh :=
    TextStreamingDecoder.init (MockSourceNode.init ["a.txt"; "b.txt"] ∅)
      "r" (Some "utf-8") ∅ in
  let d := tsd_after two_files fresh 1 in
  let resumed :=
    TextStreamingDecoder.reset two_files fresh
      (Some (TextStreamingDecoder.get_state d)) in
  resumed = (Ok (), d)
  ∧ tsd_next_item two_files resumed.2
    = Some (Dict "y"
              (Some {[ "file_path" := VStr "a.txt";
                       "item_idx" := VInt 1 ]})).
Proof. split; vm_compute; reflexivity. Qed.

(** A checkpoint taken once the source is exhausted on a file that does
    not open cannot be restored: [reset] re-opens that file and raises. *)
Example tsd_resume_after_unopenable_file :
  let fresh :=
    TextStreamingDecoder.init
      (MockSourceNode.init ["b.txt"; "missing.txt"] ∅)
      "r" (Some "utf-8") ∅ in
  let d := tsd_after two_files fresh 2 in
  TextStreamingDecoder.st_current_file (TextStreamingDecoder.get_state d)
  = Some "missing.txt"
  ∧ (TextStreamingDecoder.reset two_files fresh
       (Some (TextStreamingDecoder.get_state d))).1
    = Raise (Exception "No such file or directory").
Proof. split; vm_compute; reflexivity. Qed.

(** * Further properties *)

(** ** FileLister *)

Section ListerMore.

Import FileLister.

Lemma lister_reset_cursor l st :
  FileLister.reset l st
  = set_cursor l (Some (lister_listing l)) (lister_start st).
Proof.
  unfold lister_listing. rewrite reset_file_paths. simpl.
  rewrite reset_eq. unfold lister_start.
  by destruct st as [[[i|]]|].
Qed.

Lemma lister_run_bounded l ps idx k :
  (idx ≤ length ps)%nat →
  run (set_cursor l (Some ps) idx) k
  = set_cursor l (Some ps) ((idx + k) `min` length ps).
Proof.
  revert idx. induction k as [|k IH]; intros idx Hidx.
  - simpl. by rewrite Nat.add_0_r, Nat.min_l.
  - cbn [run]. rewrite lister_next_eq.
    rewrite (lister_next_lookup (set_cursor l (Some ps) idx) ps eq_refl).
    simpl. destruct (ps !! idx) as [path|] eqn:Hp; simpl.
    + apply lookup_lt_Some in Hp.
      etrans; [exact (IH (S idx) ltac:(lia)) | f_equal; lia].
    + apply lookup_ge_None in Hp.
      etrans; [exact (IH idx ltac:(lia)) | f_equal; lia].
Qed.

Lemma lister_next_cursor l :
  ∃ idx, (FileLister.next l).2 = set_cursor l (_file_paths l) idx.
Proof.
  destruct l as [ub pats opts proto f fp idx]. unfold FileLister.next.
  simpl. destruct fp as [[|p0 ps]|]; try by exists idx.
  destruct ((p0 :: ps) !! idx); simpl; eauto.
Qed.

Lemma lister_run_cursor l k :
  ∃ idx, run l k = set_cursor l (_file_paths l) idx.
Proof.
  revert l. induction k as [|k IH]; intros l.
  - exists (_current_idx l). by destruct l.
  - cbn [run]. rewrite lister_next_eq.
    destruct (lister_next_cursor l) as [idx ->].
    destruct (IH (set_cursor l (_file_paths l) idx)) as [idx' ->].
    by exists idx'.
Qed.

Lemma filter_isfile_elem fs ms r x :
  filter_isfile fs ms = Ok r →
  x ∈ r ↔ x ∈ ms ∧ isfile fs x = Ok true.
Proof.
  intros Hr. destruct (isfile_ok_or_raise fs ms) as [Hall|Hex].
  - destruct (filter_isfile_ok fs ms Hall) as (r' & Hr' & Hin).
    rewrite Hr in Hr'. injection Hr' as <-. apply Hin.
  - destruct (filter_isfile_raise fs ms Hex) as [e He]. congruence.
Qed.

Lemma lister_emits_listing_aux (l : FileLister.t) :
  yields (FileLister.reset l None) (lister_item l <$> lister_listing l).
Proof.
  rewrite lister_reset_cursor. rewrite <- (drop_0 (lister_listing l)) at 2.
  apply lister_yields.
Qed.

(** X1.  After [reset], with or without a checkpoint, the lister emits
    the paths of its listing in order, starting at the checkpointed
    index, each as a dictionary whose metadata gives the protocol under
    ["fs_protocol"] and ["source"], and then signals the end of the
    sequence. *)
Theorem lister_emits_listing (l : FileLister.t)
    (st : option FileLister.state) :
  yields (FileLister.reset l st)
    (lister_item l <$> drop (lister_start st) (lister_listing l)).
Proof. rewrite lister_reset_cursor. apply lister_yields. Qed.

(** X2.  Resume equivalence of the lister: after any number of calls, a
    fresh lister reset from the checkpoint is in the state of the
    running one, so its next call returns the same item or signal. *)
Theorem lister_resume_equivalence (l : FileLister.t) (k : nat) :
  FileLister.reset l (Some (FileLister.get_state (fresh_run l k)))
  = fresh_run l k
  ∧ FileLister.next
      (FileLister.reset l (Some (FileLister.get_state (fresh_run l k))))
    = FileLister.next (fresh_run l k).
Proof.
  pose proof (lister_resumable l k) as Hr.
  rewrite lister_reset_eq, lister_get_state_eq in Hr.
  by rewrite Hr.
Qed.

(** X3.  The checkpoint counts the items emitted: after [k] calls it is
    [k], capped at the length of the listing; once the listing is
    used up every further call signals the end of the sequence and
    leaves the lister as it is. *)
Theorem lister_checkpoint_counts (l : FileLister.t) (k : nat) :
  FileLister.get_state (fresh_run l k)
  = FileLister.mk_state (Some (k `min` length (lister_listing l)))
  ∧ ((length (lister_listing l) ≤ k)%nat →
     ∃ msg, FileLister.next (fresh_run l k)
            = (Raise (StopIteration msg), fresh_run l k)).
Proof.
  unfold fresh_run. rewrite lister_reset_eq, lister_reset_cursor.
  rewrite lister_run_bounded by (simpl; lia). simpl. split; [done|].
  intros Hk.
  rewrite (lister_next_lookup
             (set_cursor l (Some (lister_listing l))
                (k `min` length (lister_listing l)))
             (lister_listing l) eq_refl).
  simpl. rewrite lookup_ge_None_2 by lia. eauto.
Qed.

(** X4.  [reset] fully re-initialises the lister: whatever was consumed
    before, it gives the node a reset of the untouched lister gives; and
    a checkpoint that is an empty dictionary, or has no ["current_idx"],
    starts from the first path. *)
Theorem lister_reset_discards_progress (l : FileLister.t) (k : nat)
    (st : option FileLister.state) :
  FileLister.reset (run l k) st = FileLister.reset l st
  ∧ FileLister.reset l (Some (FileLister.mk_state None))
    = FileLister.reset l None.
Proof.
  split; [|by rewrite !lister_reset_cursor].
  destruct (lister_run_cursor l k) as [idx ->].
  rewrite !reset_eq. by destruct st as [[[i|]]|].
Qed.

(** X5.  A checkpoint index at or beyond the end of the listing is not
    an error: the first call after [reset] signals the end of the
    sequence. *)
Theorem lister_checkpoint_out_of_range (l : FileLister.t) (i : nat) :
  (length (lister_listing l) ≤ i)%nat →
  ∃ msg,
    FileLister.next
      (FileLister.reset l (Some (FileLister.mk_state (Some i))))
    = (Raise (StopIteration msg),
       FileLister.reset l (Some (FileLister.mk_state (Some i)))).
Proof.
  intros Hi. rewrite lister_reset_cursor. cbn [lister_start].
  rewrite (lister_next_lookup
             (set_cursor l (Some (lister_listing l)) i)
             (lister_listing l) eq_refl).
  simpl. rewrite lookup_ge_None_2 by done. eauto.
Qed.

(** X6.  For the patterns ["*"] and ["**/*"] a pattern contributes
    exactly the matches that [isfile] accepts, so directories are left
    out; for any other pattern it contributes every match of [glob]. *)
Theorem lister_wildcard_files_only (l : FileLister.t) (p : string)
    (ms : list string) :
  FileLister.glob_pattern l p = Ok ms →
  ∃ raw,
    glob (FileLister.fs l) (path_join (FileLister.uri_base l) p) = Ok raw
    ∧ if bool_decide (p = "**/*") || bool_decide (p = "*")
      then ∀ x, x ∈ ms
                ↔ x ∈ raw ∧ isfile (FileLister.fs l) x = Ok true
      else ms = raw.
Proof.
  unfold FileLister.glob_pattern.
  destruct (glob _ _) as [raw|e]; simpl; [|done].
  intros Hms. exists raw. split; [done|].
  destruct (_ || _).
  - intros x. by apply filter_isfile_elem.
  - by injection Hms.
Qed.

End ListerMore.

Lemma lister_checkpoint_out_of_range_witness :
  (length (lister_listing (lister_over fs_one ["*.txt"])) ≤ 5)%nat
  ∧ ∃ msg,
      FileLister.next
        (FileLister.reset (lister_over fs_one ["*.txt"])
           (Some (FileLister.mk_state (Some 5))))
      = (Raise (StopIteration msg),
         FileLister.reset (lister_over fs_one ["*.txt"])
           (Some (FileLister.mk_state (Some 5)))).
Proof.
  assert (H : (length (lister_listing (lister_over fs_one ["*.txt"])) ≤ 5)%nat)
    by (vm_compute; lia).
  split; [exact H|].
  exact (lister_checkpoint_out_of_range _ 5 H).
Defined.

Lemma lister_wildcard_files_only_witness :
  FileLister.glob_pattern (lister_over fs_dir []) "*" = Ok ["data/a.txt"]
  ∧ ∃ raw,
      glob fs_dir "data/*" = Ok raw
      ∧ ∀ x, x ∈ ["data/a.txt"]
             ↔ x ∈ raw ∧ isfile fs_dir x = Ok true.
Proof.
  assert (H : FileLister.glob_pattern (lister_over fs_dir []) "*"
              = Ok ["data/a.txt"]) by reflexivity.
  split; [exact H|].
  exact (lister_wildcard_files_only (lister_over fs_dir []) "*" _ H).
Defined.

(** ** FileReader *)

Section ReaderMore.

Context {Node Ckpt : Type} `{!BaseNode Node Ckpt}.
Variable smart_open : opener.

Local Abbreviation reader_next := (FileReader.next smart_open).
Local Abbreviation read_file := (FileReader.read_file smart_open).
Local Abbreviation reader_node := (FileReader_node smart_open).

Lemma reader_yields_aux (s : Node) items :
  yields s items →
  ∀ (r : FileReader.t Node) contents,
    FileReader.source r = s →
    Forall2 (λ it content,
               ∃ uri meta, it = Dict uri meta
                           ∧ read_file r uri = Ok content)
      items contents →
    ∃ outs, yields (BaseNode0 := reader_node) r outs
            ∧ item_data <$> outs = contents.
Proof.
  induction 1 as [s msg s' Hs | s it s' items Hs Hy IH];
    intros r contents Hr Hall.
  - apply Forall2_nil_inv_l in Hall as ->. exists []. split; [|done].
    eapply yields_stop. simpl. unfold FileReader.next.
    by rewrite Hr, Hs.
  - apply Forall2_cons_inv_l in Hall
      as (content & contents' & (uri & meta & -> & Hread) & Hall & ->).
    subst s.
    destruct (reader_success smart_open r uri meta s' content Hs Hread)
      as (md & Hnext & _).
    destruct (IH (FileReader.set_source r s') contents' eq_refl Hall)
      as (outs & Hy' & Hdata).
    exists (Dict content (Some md) :: outs). split.
    + eapply yields_item; [exact Hnext | exact Hy'].
    + by rewrite fmap_cons, Hdata.
Qed.

(** X7.  Over a finite upstream of dictionary items whose files can all
    be opened and read, the reader emits one item per upstream item, in
    the upstream order, whose payload is the whole content of the file,
    and then passes on the end-of-sequence signal. *)
Theorem reader_emits_contents (r : FileReader.t Node) items contents :
  yields (FileReader.source r) items →
  Forall2 (λ it content,
             ∃ uri meta, it = Dict uri meta ∧ read_file r uri = Ok content)
    items contents →
  ∃ outs, yields (BaseNode0 := reader_node) r outs
          ∧ item_data <$> outs = contents.
Proof. intros Hy Hall. by apply (reader_yields_aux _ items Hy). Qed.

(** X8.  Resume equivalence of the reader: over a resumable source, a
    fresh reader reset from the checkpoint taken after any number of
    calls returns, at its next call, what the uninterrupted reader
    returns. *)
Theorem reader_resume_equivalence (r : FileReader.t Node) (k : nat) :
  resumable (FileReader.source r) →
  reader_next
    (FileReader.reset r
       (Some (FileReader.get_state
                (fresh_run (BaseNode0 := reader_node) r k))))
  = reader_next (fresh_run (BaseNode0 := reader_node) r k).
Proof.
  intros Hr. f_equal. exact (reader_resumable smart_open r Hr k).
Qed.

(** X9.  In a binary mode (a mode containing [b]) the configured
    encoding is never passed to [open]: two readers that differ only in
    their encoding return the same result. *)
Theorem reader_binary_mode_ignores_encoding (s : Node) (mode : string)
    (enc1 enc2 : option string) (tp : metadata) :
  str_contains "b" mode = true →
  (reader_next (FileReader.mk s mode enc1 tp)).1
  = (reader_next (FileReader.mk s mode enc2 tp)).1.
Proof.
  intros Hb. unfold FileReader.next, FileReader.read_file. simpl.
  rewrite Hb.
  destruct (next s) as [[[u|u meta]|e] s']; simpl; [done| |done].
  by destruct (smart_open u mode None tp) as [h|e]; [destruct (read h)|].
Qed.

(** X10.  The metadata the reader emits is the upstream metadata
    extended with ["file_path"]: every upstream entry is kept with its
    value, no other key is added, and ["file_path"] is the URI that was
    read when the upstream metadata has no such key. *)
Theorem reader_metadata_extends_upstream (r : FileReader.t Node)
    uri meta s' content :
  next (FileReader.source r) = (Ok (Dict uri meta), s') →
  read_file r uri = Ok content →
  ∃ md,
    reader_next r = (Ok (Dict content (Some md)), FileReader.set_source r s')
    ∧ default ∅ meta ⊆ md
    ∧ dom md = dom (default ∅ meta) ∪ {[ "file_path" ]}
    ∧ (default ∅ meta !! "file_path" = None →
       md !! "file_path" = Some (VStr uri)).
Proof.
  intros Hs Hr. unfold FileReader.next. rewrite Hs, Hr.
  eexists. split; [reflexivity|].
  case_decide as Hmd.
  - rewrite Hmd. split; [apply map_empty_subseteq|].
    split; [|intros _; by simplify_map_eq].
    rewrite dom_empty_L, dom_singleton_L. by rewrite (left_id_L ∅ (∪)).
  - unfold dict_update. split; [apply map_union_subseteq_l|].
    split.
    + by rewrite dom_union_L, dom_singleton_L.
    + intros Hnone. rewrite lookup_union_r by done. by simplify_map_eq.
Qed.

End ReaderMore.

Lemma reader_emits_contents_witness :
  let r :=
    FileReader.init (reset (MockSourceNode.init ["a.txt"; "b.txt"] ∅) None)
      "r" (Some "utf-8") ∅ in
  yields (FileReader.source r)
    [Dict "a.txt" (Some ∅); Dict "b.txt" (Some ∅)]
  ∧ ∃ outs,
      yields (BaseNode0 := FileReader_node two_files) r outs
      ∧ item_data <$> outs
        = ["x" ++ newline ++ "y" ++ newline; "z" ++ newline].
Proof.
  intros r.
  assert (Hy : yields (FileReader.source r)
                 [Dict "a.txt" (Some ∅); Dict "b.txt" (Some ∅)])
    by yields_by_eval.
  split; [exact Hy|].
  apply (reader_emits_contents two_files r _ _ Hy).
  repeat constructor; eexists _, _; split; reflexivity.
Defined.

Lemma reader_resume_equivalence_witness :
  let r :=
    FileReader.init (MockSourceNode.init ["a.txt"; "b.txt"] ∅)
      "r" (Some "utf-8") ∅ in
  resumable (FileReader.source r)
  ∧ (FileReader.next two_files
       (FileReader.reset r
          (Some (FileReader.get_state
                   (fresh_run (BaseNode0 := FileReader_node two_files)
                      r 1))))).1
    = Ok (Dict ("z" ++ newline) (Some {[ "file_path" := VStr "b.txt" ]})).
Proof.
  intros r. split; [apply mock_resumable|].
  rewrite (reader_resume_equivalence two_files r 1 (mock_resumable _)).
  vm_compute. reflexivity.
Defined.

Lemma reader_binary_mode_ignores_encoding_witness :
  str_contains "b" "rb" = true
  ∧ (FileReader.next two_files
       (FileReader.mk (MockSourceNode.init ["b.txt"] ∅) "rb"
          (Some "utf-8") ∅)).1
    = (FileReader.next two_files
         (FileReader.mk (MockSourceNode.init ["b.txt"] ∅) "rb" None ∅)).1.
Proof.
  split; [reflexivity|].
  apply (reader_binary_mode_ignores_encoding two_files); reflexivity.
Defined.

Lemma reader_metadata_extends_upstream_witness :
  let r :=
    FileReader.init
      (MockSourceNode.init ["b.txt"] {[ "source" := VStr "local" ]})
      "r" (Some "utf-8") ∅ in
  FileReader.read_file two_files r "b.txt" = Ok ("z" ++ newline)
  ∧ ∃ md,
      (FileReader.next two_files r).1
      = Ok (Dict ("z" ++ newline) (Some md))
      ∧ md !! "source" = Some (VStr "local")
      ∧ md !! "file_path" = Some (VStr "b.txt").
Proof.
  intros r.
  assert (Hr : FileReader.read_file two_files r "b.txt"
               = Ok ("z" ++ newline)) by reflexivity.
  split; [exact Hr|].
  assert (Hs : next (FileReader.source r)
               = (Ok (Dict "b.txt" (Some {[ "source" := VStr "local" ]})),
                  MockSourceNode.mk ["b.txt"]
                    {[ "source" := VStr "local" ]} 1))
    by (vm_compute; reflexivity).
  destruct (reader_metadata_extends_upstream two_files r "b.txt" _ _ _
              Hs Hr) as (md & Hn & Hsub & _ & Hfp).
  exists md. split; [by rewrite Hn|]. split.
  - eapply lookup_weaken; [|exact Hsub]. vm_compute. reflexivity.
  - apply Hfp. vm_compute. reflexivity.
Defined.

(** ** TextStreamingDecoder *)

Section DecoderMore.

Import TextStreamingDecoder.

Context {Node Ckpt : Type} `{!BaseNode Node Ckpt}.
Variable smart_open : opener.
Variables (m : string) (enc : option string) (tp : metadata).

Local Abbreviation D := (fun s cf cl fh md => mk s m enc tp cf cl fh md).
Local Abbreviation op := (fun u => smart_open u m enc tp).
Local Abbreviation next_fuel := (next_fuel smart_open).
Local Abbreviation drain := (drain smart_open).
Local Abbreviation tsd_reset := (TextStreamingDecoder.reset smart_open).

Lemma handle_next_cons h l ls :
  handle_lines h = l :: ls →
  ∃ h', handle_next h = (Ok l, h') ∧ handle_lines h' = ls.
Proof.
  intros Hl. destruct (readline_cons h l ls Hl) as (h' & Hr & Hl' & Hne).
  exists h'. split; [|done]. unfold handle_next. rewrite Hr.
  by destruct l.
Qed.

Lemma handle_next_nil h :
  handle_lines h = [] →
  ∃ e h', handle_next h = (Raise e, h')
          ∧ (h_end h = EOF → e = StopIteration EmptyString).
Proof.
  intros Hl. unfold handle_next.
  destruct h as [s e]. unfold handle_lines, readline in *. simpl in *.
  destruct (has_newline s) eqn:Hs.
  - destruct (readline_str_text_lines s Hs) as [Ht _].
    pose proof (readline_str_complete_lines s Hs) as Hc.
    destruct e; congruence.
  - destruct e as [|e].
    + rewrite (text_lines_no_newline s Hs) in Hl.
      destruct s; [|done]. eauto.
    + exists e. eexists. split; [reflexivity | done].
Qed.

Lemma handle_next_end h l h' :
  handle_next h = (Ok l, h') → h_end h' = h_end h.
Proof.
  unfold handle_next, readline. destruct h as [s e]. simpl.
  destruct (has_newline s).
  - destruct (readline_str s) as [[|c l0] r]; [done|].
    by intros [= _ <-].
  - destruct e; [|done]. destruct s; [done|]. by intros [= _ <-].
Qed.

(** Skipping [n] lines of a handle that has them leaves the others. *)
Lemma skip_lines_drop n h :
  (n ≤ length (handle_lines h))%nat →
  ∃ h', skip_lines n h = Ok h'
        ∧ handle_lines h' = drop n (handle_lines h).
Proof.
  revert h. induction n as [|n IH]; intros h Hn; [by exists h|].
  destruct (handle_lines h) as [|l ls] eqn:Hl; [simpl in Hn; lia|].
  destruct (handle_next_cons h l ls Hl) as (h1 & Hh & Hl1).
  simpl. rewrite Hh.
  destruct (IH h1) as (h' & Hs & Hd); [rewrite Hl1; simpl in Hn; lia|].
  exists h'. by rewrite Hs, Hd, Hl1.
Qed.

(** Skipping more lines than a handle has raises. *)
Lemma skip_lines_short n h :
  (length (handle_lines h) < n)%nat →
  ∃ e, skip_lines n h = Raise e
       ∧ (h_end h = EOF → e = StopIteration EmptyString).
Proof.
  revert h. induction n as [|n IH]; intros h Hn; [lia|].
  destruct (handle_lines h) as [|l ls] eqn:Hl.
  - destruct (handle_next_nil h Hl) as (e & h' & Hh & He).
    exists e. simpl. by rewrite Hh.
  - destruct (handle_next_cons h l ls Hl) as (h1 & Hh & Hl1).
    simpl. rewrite Hh.
    destruct (IH h1) as (e & Hs & He); [rewrite Hl1; simpl in Hn; lia|].
    exists e. split; [done|]. intros Hend. apply He.
    by rewrite (handle_next_end h l h1 Hh).
Qed.

(** X11.  Resuming by line count.  [reset] from a checkpoint that names
    a file and a line count re-opens the file and reads past that many
    lines, so that, when the file is opened as text, the first call of
    [next] returns the line with that index, numbered by it; the
    metadata is the one under the checkpoint's ["metadata"] key, or
    none when the key is absent. *)
Theorem tsd_reset_seeks_line (d : t Node) ck f n mdo h0 l :
  binary_stream (mode d) (encoding d) = false →
  smart_open f (mode d) (encoding d) (transport_params d) = Ok h0 →
  handle_lines h0 !! n = Some l →
  ∃ d' d'',
    tsd_reset d (Some (mk_state ck (Some f) (Some n) mdo)) = (Ok (), d')
    ∧ next_fuel 1 d'
      = Some (Ok (line_item (Some f) (default ∅ mdo) n l), d'')
    ∧ _current_file d'' = Some f
    ∧ _current_line d'' = S n.
Proof.
  intros Hb Ho Hl. destruct d as [s m' enc' tp' cf cl fh md].
  simpl in Hb, Ho.
  unfold TextStreamingDecoder.reset, open_file. simpl. rewrite Ho.
  destruct (skip_lines_drop n h0) as (h' & -> & Hd).
  { apply lookup_lt_Some in Hl. lia. }
  assert (Hl' : handle_lines h' = l :: drop (S n) (handle_lines h0)).
  { rewrite Hd. by apply drop_S. }
  destruct (readline_cons h' _ _ Hl') as (h'' & Hr & _ & Hne).
  eexists _, _. split; [reflexivity|]. simpl.
  unfold _get_next_line. simpl. rewrite Hr, Hb.
  rewrite bool_decide_eq_false_2 by done. done.
Qed.

(** X12.  Unlike [next], [reset] does not pass over a file it cannot
    use: when the file named by the checkpoint fails to open, or has
    fewer lines than the checkpoint counts, [reset] raises. *)
Theorem tsd_reset_raises (d : t Node) ck f n mdo :
  (∃ e, smart_open f (mode d) (encoding d) (transport_params d) = Raise e)
  ∨ (∃ h0, smart_open f (mode d) (encoding d) (transport_params d) = Ok h0
           ∧ (length (handle_lines h0) < n)%nat) →
  ∃ e, (tsd_reset d (Some (mk_state ck (Some f) (Some n) mdo))).1
       = Raise e.
Proof.
  destruct d as [s m' enc' tp' cf cl fh md]. simpl.
  unfold TextStreamingDecoder.reset, open_file. simpl.
  intros [[e ->]|(h0 & -> & Hn)]; [by exists e|].
  destruct (skip_lines_short n h0 Hn) as (e & -> & _). by exists e.
Qed.

Lemma handle_lines_nil_EOF h :
  handle_lines h = [] → h_end h = EOF → h = mk_handle EmptyString EOF.
Proof.
  destruct h as [s e]. unfold handle_lines. simpl. intros Hl ->.
  destruct (has_newline s) eqn:Hs.
  - destruct (readline_str_text_lines s Hs) as [Ht _]. congruence.
  - rewrite (text_lines_no_newline s Hs) in Hl. by destruct s.
Qed.

Lemma skip_stop_short n h :
  (length (handle_lines h) < n)%nat → h_end h = EOF →
  skip_stop n h = mk_handle EmptyString EOF.
Proof.
  revert h. induction n as [|n IH]; intros h Hn He; [lia|].
  destruct (handle_lines h) as [|l ls] eqn:Hl.
  - by rewrite (handle_lines_nil_EOF h Hl He).
  - destruct (handle_next_cons h l ls Hl) as (h1 & Hh & Hl1).
    simpl. rewrite Hh. apply IH; [rewrite Hl1; simpl in Hn; lia|].
    by rewrite (handle_next_end h l h1 Hh).
Qed.

(** X25.  A checkpoint beyond the end of the file.  When the file named
    by the checkpoint opens and ends cleanly with fewer lines than the
    checkpoint counts, [reset] raises the end-of-sequence signal of the
    file object; the node keeps the file, the line count and the
    handle, which has been read to its end, so that a following call
    of [next] finds the end of the file and goes on with the next
    upstream item. *)
Theorem tsd_reset_beyond_end (d : t Node) ck f n mdo h0 :
  smart_open f (mode d) (encoding d) (transport_params d) = Ok h0 →
  h_end h0 = EOF →
  (length (handle_lines h0) < n)%nat →
  ∃ d',
    tsd_reset d (Some (mk_state ck (Some f) (Some n) mdo))
    = (Raise (StopIteration EmptyString), d')
    ∧ _file_handle d' = Some (mk_handle EmptyString EOF)
    ∧ _current_file d' = Some f
    ∧ _current_line d' = n
    ∧ ∀ F, next_fuel (S F) d' = next_fuel F (set_handle d' None).
Proof.
  intros Ho He Hn. destruct d as [s m' enc' tp' cf cl fh md]. simpl in Ho.
  unfold TextStreamingDecoder.reset, open_file. simpl. rewrite Ho.
  destruct (skip_lines_short n h0 Hn) as (e & -> & Hmsg).
  rewrite (Hmsg He), (skip_stop_short n h0 Hn He).
  eexists. split; [reflexivity|]. repeat split.
Qed.

(** X13.  The position invariant of a run.  In every node reached from
    a full reset by calls of [next], an open handle is exactly where
    re-opening the current file and reading past [_current_line] lines
    leads: the checkpoint always describes the handle. *)
Theorem tsd_handle_position (src0 : Node) (F k : nat) :
  match run_fuel smart_open F k
          (tsd_reset (init src0 m enc tp) None).2 with
  | Some d => positioned smart_open d
  | None => True
  end.
Proof.
  destruct (run_fuel _ _ _ _) as [d|] eqn:Hrun; [|done].
  by destruct (run_inv_run_fuel smart_open src0 m enc tp F k _ d
                 (run_inv_reset smart_open src0 m enc tp) Hrun)
    as (_ & _ & _ & _ & Hp).
Qed.

(** X14.  Resume equivalence of the decoder when no source metadata is
    in force: over a resumable source, if the checkpoint is taken while
    a file is open or before any file was pulled, a fresh decoder reset
    from it is the checkpointed node itself, file position included. *)
Theorem tsd_resume_without_metadata (src0 : Node) (F k : nat) (d : t Node) :
  resumable src0 →
  run_fuel smart_open F k (tsd_reset (init src0 m enc tp) None).2
  = Some d →
  _source_metadata d = ∅ →
  (_file_handle d = None → _current_file d = None) →
  tsd_reset (init src0 m enc tp)
    (Some (TextStreamingDecoder.get_state d))
  = (Ok (), d).
Proof.
  intros Hres Hrun Hmd Hcf.
  apply tsd_reset_restores; try done.
  by apply (run_inv_run_fuel smart_open src0 m enc tp F k _ d
              (run_inv_reset smart_open src0 m enc tp)).
Qed.

Lemma readline_strip h l h' :
  readline h = (Ok l, h') → has_newline (rstrip_nl l) = false.
Proof.
  destruct h as [s e]. unfold readline. simpl.
  destruct (has_newline s) eqn:Hs.
  - pose proof (readline_str_body s Hs) as Hb.
    destruct (readline_str s) as [l0 r]. simpl in Hb.
    intros [= <- _]. rewrite Hb.
    rewrite rstrip_nl_terminated by apply line_body_no_newline.
    apply line_body_no_newline.
  - destruct e; [|done]. intros [= <- _].
    by rewrite rstrip_nl_no_newline.
Qed.

Lemma expected_inherit md md' items :
  expected op md items = expected op md' (inherit_metadata md items).
Proof.
  revert md md'. induction items as [|[f|f [mf|]] items IH];
    intros md md'; simpl; [done|..]; f_equal; apply IH.
Qed.

(** X15.  Line indexing.  On text streams, when the upstream metadata
    of a file has neither ["item_idx"] nor ["file_path"], a file that
    opens with [k] lines gives exactly [k] items before those of the
    following files; the [j]-th carries the [j]-th line without its
    newline, the index [j] and the path of the file. *)
Theorem tsd_line_indexing s f md rest cf cl md0 h :
  binary_stream m enc = false →
  yields s (Dict f (Some md) :: rest) →
  op f = Ok h →
  md !! "item_idx" = None → md !! "file_path" = None →
  ∃ F k msg out,
    drain F k (D s cf cl None md0) = Some (out, StopIteration msg)
    ∧ out = (number_lines (Some f) md 0 (handle_lines h)
             ++ expected op md rest)%list
    ∧ ∀ j l, handle_lines h !! j = Some l →
        ∃ it, out !! j = Some it
              ∧ item_data it = rstrip_nl l
              ∧ item_metadata it !! "item_idx" = Some (VInt (Z.of_nat j))
              ∧ item_metadata it !! "file_path" = Some (VStr f).
Proof.
  intros Hb Hy Ho Hidx Hfp.
  destruct (drain_expected smart_open m enc tp _ Hb s _ cf cl None md0 Hy
              eq_refl) as (F & k & msg & Hd).
  exists F, k, msg. eexists. split; [exact Hd|].
  unfold expected_from. cbn [expected upstream_file app default].
  rewrite Ho. split; [done|].
  intros j l Hl. exists (line_item (Some f) md j l).
  split; [|split; [done|split]].
  - rewrite lookup_app_l
      by (rewrite number_lines_length; by apply lookup_lt_Some in Hl).
    by rewrite (number_lines_lookup _ _ 0 _ j l Hl).
  - by apply line_item_item_idx.
  - by rewrite line_item_file_path.
Qed.

(** X16.  Items without metadata.  A dictionary item that has no
    ["metadata"] key is read with the source metadata of the item before
    it, and a bare string with none: the decoder emits over an upstream
    sequence what it emits over the same sequence with that metadata
    written into each item. *)
Theorem tsd_missing_metadata_inherited s s' items cf cl md cf' cl' md' :
  yields s items →
  yields s' (inherit_metadata md items) →
  ∃ F k out msg msg',
    drain F k (D s cf cl None md) = Some (out, StopIteration msg)
    ∧ drain F k (D s' cf' cl' None md') = Some (out, StopIteration msg').
Proof.
  intros Hy Hy'.
  assert (∃ F1 k1 F2 k2 out msg msg',
            drain F1 k1 (D s cf cl None md) = Some (out, StopIteration msg)
            ∧ drain F2 k2 (D s' cf' cl' None md')
              = Some (out, StopIteration msg'))
    as (F1 & k1 & F2 & k2 & out & msg & msg' & Hd1 & Hd2).
  { destruct (binary_stream m enc) eqn:Hb.
    - destruct (drain_binary smart_open m enc tp s _ cf cl None md Hb Hy)
        as (F1 & k1 & msg & Hd1).
      destruct (drain_binary smart_open m enc tp s' _ cf' cl' None md' Hb
                  Hy') as (F2 & k2 & msg' & Hd2).
      by exists F1, k1, F2, k2, [], msg, msg'.
    - destruct (drain_expected smart_open m enc tp _ Hb s _ cf cl None md
                  Hy eq_refl) as (F1 & k1 & msg & Hd1).
      destruct (drain_expected smart_open m enc tp _ Hb s' _ cf' cl' None
                  md' Hy' eq_refl) as (F2 & k2 & msg' & Hd2).
      unfold expected_from in Hd1, Hd2. simpl in Hd1, Hd2.
      rewrite <- (expected_inherit md md' items) in Hd2.
      by exists F1, k1, F2, k2, (expected op md items), msg, msg'. }
  exists (F1 `max` F2), (k1 `max` k2), out, msg, msg'.
  split.
  - apply (drain_mono smart_open F1 (F1 `max` F2) k1 (k1 `max` k2));
      [lia | lia | exact Hd1].
  - apply (drain_mono smart_open F2 (F1 `max` F2) k2 (k1 `max` k2));
      [lia | lia | exact Hd2].
Qed.

(** X17.  A full reset restarts the sequence.  Whatever the node has
    consumed, and whatever file, line count and metadata it holds,
    [reset] without a checkpoint succeeds and, on text streams, gives
    a node that emits the whole sequence of the re-started source,
    numbered afresh and with no metadata carried over. *)
Theorem tsd_full_reset_restarts (d : t Node) items :
  binary_stream (mode d) (encoding d) = false →
  yields (fresh_run (source d) 0) items →
  (tsd_reset d None).1 = Ok ()
  ∧ ∃ F k msg,
      TextStreamingDecoder.drain smart_open F k (tsd_reset d None).2
      = Some (expected (open_file smart_open d) ∅ items, StopIteration msg).
Proof.
  intros Hb Hy. split; [done|].
  destruct d as [s m' enc' tp' cf cl fh md]. simpl in Hb.
  destruct (drain_expected smart_open m' enc' tp' _ Hb _ _ None 0 None ∅ Hy
              eq_refl) as (F & k & msg & Hd).
  by exists F, k, msg.
Qed.

(** X18.  What [next] returns.  Every item a call of [next] returns is
    a line item whose payload holds no newline and whose metadata
    contains the source metadata then in force; the file it was read
    from is still open, and, unless the source metadata overrides these
    keys, ["item_idx"] is one less than the line count of the node and
    ["file_path"] is its current file, so that a checkpoint taken next
    names this item's file and counts this item. *)
Theorem tsd_returned_item (F : nat) (d : t Node) it d' :
  next_fuel F d = Some (Ok it, d') →
  is_line_item it
  ∧ has_newline (item_data it) = false
  ∧ _source_metadata d' ⊆ item_metadata it
  ∧ is_Some (_file_handle d')
  ∧ (_source_metadata d' !! "item_idx" = None →
     ∃ i, _current_line d' = S i
          ∧ item_metadata it !! "item_idx" = Some (VInt (Z.of_nat i)))
  ∧ (_source_metadata d' !! "file_path" = None →
     item_metadata it !! "file_path"
     = Some (from_option VStr VNone (_current_file d'))).
Proof.
  revert d. induction F as [|F IH]; intros d; [done|]. simpl.
  destruct (_file_handle d) as [h|] eqn:Hh.
  - unfold _get_next_line. rewrite Hh.
    destruct (readline h) as [[l|e] h'] eqn:Hr; [|apply IH].
    case_bool_decide as Hl; [apply IH|].
    destruct (binary_stream (mode d) (encoding d)); [apply IH|].
    intros [= <- <-]. simpl.
    split; [apply line_item_is_line_item|].
    split; [by apply (readline_strip h l h')|].
    split.
    { case_decide as Hmd; [rewrite Hmd; apply map_empty_subseteq|].
      apply map_union_subseteq_l. }
    split; [done|]. split.
    + intros Hidx. exists (_current_line d). split; [done|].
      exact (line_item_item_idx _ _ (_current_line d) l Hidx).
    + intros Hfp.
      exact (line_item_file_path _ _ (_current_line d) l Hfp).
  - destruct (_get_next_file smart_open d) as [[b|e] d1]; [apply IH|done].
Qed.

(** X19.  What [next] raises.  Whatever [open] and [readline] do, an
    exception leaving [next] is one the source raised: it comes from the
    pull that ended the call, the source is left as that pull left it,
    and no file is open. *)
Theorem tsd_raises_only_source_exceptions (F : nat) (d : t Node) e d' :
  next_fuel F d = Some (Raise e, d') →
  _file_handle d' = None
  ∧ ∃ j, next (run (source d) j) = (Raise e, source d').
Proof.
  revert d. induction F as [|F IH]; intros d; [done|]. simpl.
  destruct (_file_handle d) as [h|] eqn:Hh.
  - unfold _get_next_line. rewrite Hh.
    destruct (readline h) as [[l|e0] h'];
      [case_bool_decide;
       [|destruct (binary_stream (mode d) (encoding d))]|];
      try done; intros Hn; by destruct (IH _ Hn) as [? [j Hj]]; eauto.
  - unfold _get_next_file.
    destruct (next (source d)) as [[it|e0] s'] eqn:Hs.
    + destruct (open_file _ _ _) as [h|e1]; intros Hn;
        destruct (IH _ Hn) as [Hnone [j Hj]]; (split; [done|]);
        exists (S j); cbn [run]; rewrite Hs;
        by destruct it as [u|u [mu|]].
    + intros [= <- <-]. split; [done|]. by exists 0.
Qed.

End DecoderMore.

(** ** The lister feeding the reader and the decoder *)

Section Chains.

Variable smart_open : opener.

Lemma lister_metadata_no_reserved (l : FileLister.t) :
  ({[ "fs_protocol" := VStr (FileLister.protocol l);
      "source" := VStr (FileLister.protocol l) ]} : metadata)
    !! "file_path" = None
  ∧ ({[ "fs_protocol" := VStr (FileLister.protocol l);
        "source" := VStr (FileLister.protocol l) ]} : metadata)
      !! "item_idx" = None.
Proof. split; by simplify_map_eq. Qed.

Lemma number_lines_Forall f md i ls :
  Forall (λ it, ∃ j l, ls !! j = Some l
                       ∧ it = TextStreamingDecoder.line_item f md (i + j) l)
    (TextStreamingDecoder.number_lines f md i ls).
Proof.
  revert i. induction ls as [|l ls IH]; intros i; simpl; constructor.
  - exists 0, l. by rewrite Nat.add_0_r.
  - eapply Forall_impl; [apply (IH (S i))|].
    intros it (j & l' & Hj & ->). exists (S j), l'. split; [done|].
    by rewrite Nat.add_succ_r.
Qed.

Lemma expected_lister_items (op : string → result handle)
    (l : FileLister.t) md0 paths :
  Forall (λ it, ∃ path h j line,
            path ∈ paths ∧ op path = Ok h
            ∧ handle_lines h !! j = Some line
            ∧ it = TextStreamingDecoder.line_item (Some path)
                     {[ "fs_protocol" := VStr (FileLister.protocol l);
                        "source" := VStr (FileLister.protocol l) ]} j line)
    (TextStreamingDecoder.expected op md0 (lister_item l <$> paths)).
Proof.
  revert md0. induction paths as [|path paths IH]; intros md0; simpl;
    [constructor|].
  apply Forall_app. split.
  - destruct (op path) as [h|e] eqn:Ho; [|constructor].
    eapply Forall_impl; [apply number_lines_Forall|].
    intros it (j & line & Hj & ->). exists path, h, j, line.
    repeat split; try done. apply list_elem_of_here.
  - eapply Forall_impl; [apply IH|].
    intros it (p & h & j & line & Hp & Ho & Hj & ->).
    exists p, h, j, line. repeat split; try done.
    by apply list_elem_of_further.
Qed.

(** X20.  The lister feeding the decoder.  On text streams a decoder
    over a lister emits, for the listed paths in order, the lines of
    the files that open, and then the end-of-sequence signal.  The
    lister's metadata never collides with the decoder's keys, so every
    item carries the listed path under ["file_path"], the index of its
    line in that file under ["item_idx"], and the protocol under
    ["source"] and ["fs_protocol"]. *)
Theorem lister_decoder_chain (l : FileLister.t) (m : string)
    (enc : option string) (tp : metadata) :
  binary_stream m enc = false →
  ∃ F k msg out,
    TextStreamingDecoder.drain smart_open F k
      (TextStreamingDecoder.reset smart_open
         (TextStreamingDecoder.init l m enc tp) None).2
    = Some (out, StopIteration msg)
    ∧ item_data <$> out
      = TextStreamingDecoder.readable_lines (λ u, smart_open u m enc tp)
          (lister_item l <$> lister_listing l)
    ∧ Forall (λ it, ∃ path h j line,
                path ∈ lister_listing l
                ∧ smart_open path m enc tp = Ok h
                ∧ handle_lines h !! j = Some line
                ∧ item_data it = rstrip_nl line
                ∧ item_metadata it !! "file_path" = Some (VStr path)
                ∧ item_metadata it !! "item_idx" = Some (VInt (Z.of_nat j))
                ∧ item_metadata it !! "source"
                  = Some (VStr (FileLister.protocol l))
                ∧ item_metadata it !! "fs_protocol"
                  = Some (VStr (FileLister.protocol l)))
        out.
Proof.
  intros Hb. pose proof (lister_emits_listing_aux l) as Hy.
  destruct (drain_expected smart_open m enc tp _ Hb _ _ None 0 None ∅ Hy
              eq_refl) as (F & k & msg & Hd).
  exists F, k, msg. eexists. split; [exact Hd|].
  unfold TextStreamingDecoder.expected_from. cbn [app].
  split; [apply expected_data|].
  eapply Forall_impl; [apply (expected_lister_items _ l)|].
  intros it (path & h & j & line & Hp & Ho & Hj & ->).
  destruct (lister_metadata_no_reserved l) as [Hfp Hidx].
  exists path, h, j, line. repeat split; try done;
    first [ by rewrite line_item_file_path
          | by rewrite line_item_item_idx
          | apply line_item_upstream; by simplify_map_eq ].
Qed.

Lemma reader_yields_rel {Node Ckpt} `{!BaseNode Node Ckpt} (s : Node) items :
  yields s items →
  ∀ (r : FileReader.t Node),
    FileReader.source r = s →
    Forall (λ it, ∃ uri meta content,
              it = Dict uri meta
              ∧ FileReader.read_file smart_open r uri = Ok content)
      items →
    ∃ outs,
      yields (BaseNode0 := FileReader_node smart_open) r outs
      ∧ Forall2 (λ it out,
                   ∃ uri meta,
                     it = Dict uri meta
                     ∧ FileReader.read_file smart_open r uri
                       = Ok (item_data out)
                     ∧ default ∅ meta ⊆ item_metadata out
                     ∧ (default ∅ meta !! "file_path" = None →
                        item_metadata out !! "file_path"
                        = Some (VStr uri)))
          items outs.
Proof.
  induction 1 as [s msg s' Hs | s it s' items Hs Hy IH];
    intros r Hr Hall.
  - exists []. split; [|constructor].
    eapply yields_stop. simpl. unfold FileReader.next. by rewrite Hr, Hs.
  - apply Forall_cons in Hall
      as [(uri & meta & content & -> & Hread) Hall].
    subst s.
    destruct (reader_success smart_open r uri meta s' content Hs Hread)
      as (md & Hnext & Hsub & Hfp & _).
    destruct (IH (FileReader.set_source r s') eq_refl Hall)
      as (outs & Hy' & Hrel).
    exists (Dict content (Some md) :: outs). split.
    + eapply yields_item; [exact Hnext | exact Hy'].
    + constructor; [|exact Hrel].
      exists uri, meta. repeat split; try done.
      apply map_subseteq_spec. intros k v. apply Hsub.
Qed.

(** X21.  The lister feeding the reader.  When every listed file can be
    opened and read, a reader over a lister emits one item per listed
    path, in the order of the listing, holding the content of that
    file, its path under ["file_path"] and the protocol under
    ["source"] and ["fs_protocol"]. *)
Theorem lister_reader_chain (l : FileLister.t) (mode : string)
    (enc : option string) (tp : metadata) :
  let r := FileReader.mk (FileLister.reset l None) mode enc tp in
  Forall (λ path, ∃ content,
            FileReader.read_file smart_open r path = Ok content)
    (lister_listing l) →
  ∃ outs,
    yields (BaseNode0 := FileReader_node smart_open) r outs
    ∧ Forall2 (λ path out,
                 FileReader.read_file smart_open r path = Ok (item_data out)
                 ∧ item_metadata out !! "file_path" = Some (VStr path)
                 ∧ item_metadata out !! "source"
                   = Some (VStr (FileLister.protocol l))
                 ∧ item_metadata out !! "fs_protocol"
                   = Some (VStr (FileLister.protocol l)))
        (lister_listing l) outs.
Proof.
  intros r Hall.
  destruct (reader_yields_rel _ _ (lister_emits_listing_aux l) r eq_refl)
    as (outs & Hy & Hrel).
  { apply Forall_fmap. eapply Forall_impl; [exact Hall|].
    intros path [content Hc]. by eexists path, _, content. }
  exists outs. split; [exact Hy|].
  apply Forall2_fmap_l in Hrel.
  eapply Forall2_impl; [exact Hrel|].
  intros path out (uri & meta & [= <- <-] & Hread & Hsub & Hfp).
  destruct (lister_metadata_no_reserved l) as [Hfp' _].
  repeat split; try done;
    first [ by apply Hfp
          | eapply lookup_weaken; [|exact Hsub]; by simplify_map_eq ].
Qed.

End Chains.

(** ** Instances of the further properties *)

Lemma tsd_reset_seeks_line_witness :
  let d :=
    TextStreamingDecoder.init (MockSourceNode.init ["a.txt"; "b.txt"] ∅)
      "r" (Some "utf-8") ∅ in
  let h0 := mk_handle ("x" ++ newline ++ "y" ++ newline) EOF in
  (binary_stream "r" (Some "utf-8") = false
   ∧ two_files "a.txt" "r" (Some "utf-8") ∅ = Ok h0
   ∧ handle_lines h0 !! 1 = Some ("y" ++ newline))
  ∧ ∃ d' d'',
      TextStreamingDecoder.reset two_files d
        (Some (TextStreamingDecoder.mk_state
                 (MockSourceNode.mk_state (Some 1)) (Some "a.txt") (Some 1)
                 (Some {[ "source" := VStr "local" ]})))
      = (Ok (), d')
      ∧ TextStreamingDecoder.next_fuel two_files 1 d'
        = Some (Ok (TextStreamingDecoder.line_item (Some "a.txt")
                      {[ "source" := VStr "local" ]} 1 ("y" ++ newline)),
                d'')
      ∧ TextStreamingDecoder._current_file d'' = Some "a.txt"
      ∧ TextStreamingDecoder._current_line d'' = 2.
Proof.
  intros d h0.
  assert (Ho : two_files "a.txt" "r" (Some "utf-8") ∅ = Ok h0)
    by reflexivity.
  assert (Hl : handle_lines h0 !! 1 = Some ("y" ++ newline))
    by reflexivity.
  split; [by repeat split|].
  exact (tsd_reset_seeks_line two_files d (MockSourceNode.mk_state (Some 1))
           "a.txt" 1 (Some {[ "source" := VStr "local" ]}) h0 _ eq_refl
           Ho Hl).
Defined.

Lemma tsd_reset_raises_witness :
  let d :=
    TextStreamingDecoder.init (MockSourceNode.init ["a.txt"; "b.txt"] ∅)
      "r" (Some "utf-8") ∅ in
  (two_files "b.txt" "r" (Some "utf-8") ∅
   = Ok (mk_handle ("z" ++ newline) EOF)
   ∧ (length (handle_lines (mk_handle ("z" ++ newline) EOF)) < 3)%nat)
  ∧ ∃ e,
      (TextStreamingDecoder.reset two_files d
         (Some (TextStreamingDecoder.mk_state
                  (MockSourceNode.mk_state (Some 2)) (Some "b.txt") (Some 3)
                  None))).1
      = Raise e.
Proof.
  intros d.
  assert (Ho : two_files "b.txt" "r" (Some "utf-8") ∅
               = Ok (mk_handle ("z" ++ newline) EOF)) by reflexivity.
  assert (Hn : (length (handle_lines (mk_handle ("z" ++ newline) EOF)) < 3)%nat)
    by (vm_compute; lia).
  split; [by split|].
  apply (tsd_reset_raises two_files d). right. eexists. by split.
Defined.

Lemma tsd_resume_without_metadata_witness :
  let src0 := MockSourceNode.init ["a.txt"; "b.txt"] ∅ in
  let fresh := TextStreamingDecoder.init src0 "r" (Some "utf-8") ∅ in
  let d := tsd_after two_files fresh 1 in
  (TextStreamingDecoder.run_fuel two_files 8 1
     (TextStreamingDecoder.reset two_files fresh None).2 = Some d
   ∧ TextStreamingDecoder._source_metadata d = ∅)
  ∧ TextStreamingDecoder.reset two_files fresh
      (Some (TextStreamingDecoder.get_state d))
    = (Ok (), d).
Proof.
  intros src0 fresh d.
  assert (Hrun : TextStreamingDecoder.run_fuel two_files 8 1
                   (TextStreamingDecoder.reset two_files fresh None).2
                 = Some d) by (vm_compute; reflexivity).
  assert (Hmd : TextStreamingDecoder._source_metadata d = ∅)
    by (vm_compute; reflexivity).
  split; [by split|].
  apply (tsd_resume_without_metadata two_files "r" (Some "utf-8") ∅
           src0 8 1 d (mock_resumable src0) Hrun Hmd).
  vm_compute. discriminate.
Defined.

Lemma tsd_line_indexing_witness :
  let md : metadata := {[ "source" := VStr "local" ]} in
  let s := MockSourceNode.init ["a.txt"; "b.txt"] md in
  (binary_stream "r" (Some "utf-8") = false
   ∧ yields s [Dict "a.txt" (Some md); Dict "b.txt" (Some md)])
  ∧ ∃ F k msg out,
      TextStreamingDecoder.drain two_files F k
        (TextStreamingDecoder.mk s "r" (Some "utf-8") ∅ None 0 None ∅)
      = Some (out, StopIteration msg)
      ∧ (λ it, (item_data it, item_metadata it !! "item_idx")) <$> out
        = [("x", Some (VInt 0)); ("y", Some (VInt 1)); ("z", Some (VInt 0))].
Proof.
  intros md s.
  assert (Hy : yields s [Dict "a.txt" (Some md); Dict "b.txt" (Some md)])
    by yields_by_eval.
  split; [by split|].
  destruct (tsd_line_indexing two_files "r" (Some "utf-8") ∅ s "a.txt" md
              [Dict "b.txt" (Some md)] None 0 ∅
              (mk_handle ("x" ++ newline ++ "y" ++ newline) EOF)
              eq_refl Hy eq_refl eq_refl eq_refl)
    as (F & k & msg & out & Hd & Hout & _).
  exists F, k, msg, out. split; [exact Hd|].
  rewrite Hout. vm_compute. reflexivity.
Defined.

Lemma tsd_missing_metadata_inherited_witness :
  let md : metadata := {[ "source" := VStr "local" ]} in
  let items := [Dict "b.txt" (Some md); Dict "a.txt" None; Str "b.txt"] in
  (yields (BaseNode0 := ItemSource_node) (ItemSource.mk items 0) items
   ∧ yields (BaseNode0 := ItemSource_node)
       (ItemSource.mk (inherit_metadata ∅ items) 0)
       (inherit_metadata ∅ items))
  ∧ inherit_metadata ∅ items
    = [Dict "b.txt" (Some md); Dict "a.txt" (Some md);
       Dict "b.txt" (Some ∅)]
  ∧ ∃ F k out msg msg',
      TextStreamingDecoder.drain (BaseNode0 := ItemSource_node) two_files
        F k
        (TextStreamingDecoder.mk (ItemSource.mk items 0)
           "r" (Some "utf-8") ∅ None 0 None ∅)
      = Some (out, StopIteration msg)
      ∧ TextStreamingDecoder.drain (BaseNode0 := ItemSource_node) two_files
          F k
          (TextStreamingDecoder.mk
             (ItemSource.mk (inherit_metadata ∅ items) 0)
             "r" (Some "utf-8") ∅ None 0 None ∅)
        = Some (out, StopIteration msg').
Proof.
  intros md items.
  assert (Hy : yields (BaseNode0 := ItemSource_node)
                 (ItemSource.mk items 0) items) by yields_by_eval.
  assert (Hy' : yields (BaseNode0 := ItemSource_node)
                  (ItemSource.mk (inherit_metadata ∅ items) 0)
                  (inherit_metadata ∅ items)) by yields_by_eval.
  split; [by split|]. split; [reflexivity|].
  exact (tsd_missing_metadata_inherited (BaseNode0 := ItemSource_node)
           two_files "r" (Some "utf-8") ∅ _ _ items None 0 ∅ None 0 ∅
           Hy Hy').
Defined.

Lemma tsd_full_reset_restarts_witness :
  let md : metadata := {[ "source" := VStr "local" ]} in
  let d :=
    tsd_after two_files
      (TextStreamingDecoder.init (MockSourceNode.init ["a.txt"; "b.txt"] md)
         "r" (Some "utf-8") ∅) 1 in
  (binary_stream (TextStreamingDecoder.mode d)
     (TextStreamingDecoder.encoding d) = false
   ∧ yields (fresh_run (TextStreamingDecoder.source d) 0)
       [Dict "a.txt" (Some md); Dict "b.txt" (Some md)])
  ∧ ∃ F k msg out,
      TextStreamingDecoder.drain two_files F k
        (TextStreamingDecoder.reset two_files d None).2
      = Some (out, StopIteration msg)
      ∧ (λ it, (item_data it, item_metadata it !! "item_idx")) <$> out
        = [("x", Some (VInt 0)); ("y", Some (VInt 1)); ("z", Some (VInt 0))].
Proof.
  intros md d.
  assert (Hy : yields (fresh_run (TextStreamingDecoder.source d) 0)
                 [Dict "a.txt" (Some md); Dict "b.txt" (Some md)])
    by yields_by_eval.
  assert (Hb : binary_stream (TextStreamingDecoder.mode d)
                 (TextStreamingDecoder.encoding d) = false)
    by (vm_compute; reflexivity).
  split; [by split|].
  destruct (tsd_full_reset_restarts two_files d _ Hb Hy)
    as [_ (F & k & msg & Hd)].
  exists F, k, msg. eexists. split; [exact Hd|].
  vm_compute. reflexivity.
Defined.

Lemma tsd_returned_item_witness :
  let d :=
    tsd_after two_files
      (TextStreamingDecoder.init
         (MockSourceNode.init ["missing.txt"; "a.txt"]
            {[ "source" := VStr "local" ]})
         "r" (Some "utf-8") ∅) 0 in
  ∃ it d',
    TextStreamingDecoder.next_fuel two_files 8 d = Some (Ok it, d')
    ∧ has_newline (item_data it) = false
    ∧ TextStreamingDecoder._source_metadata d' ⊆ item_metadata it
    ∧ is_Some (TextStreamingDecoder._file_handle d').
Proof.
  intros d.
  assert (Hn : ∃ it d',
             TextStreamingDecoder.next_fuel two_files 8 d = Some (Ok it, d'))
    by (eexists _, _; vm_compute; reflexivity).
  destruct Hn as (it & d' & Hn). exists it, d'. split; [exact Hn|].
  destruct (tsd_returned_item two_files 8 d it d' Hn)
    as (_ & Hnl & Hsub & Hh & _).
  by repeat split.
Defined.

Lemma tsd_raises_only_source_exceptions_witness :
  let d :=
    tsd_after two_files
      (TextStreamingDecoder.init
         (MockSourceNode.init ["missing.txt"] ∅) "r" (Some "utf-8") ∅) 0 in
  ∃ d',
    TextStreamingDecoder.next_fuel two_files 8 d
    = Some (Raise (StopIteration "No more files"), d')
    ∧ TextStreamingDecoder._file_handle d' = None
    ∧ ∃ j, next (run (TextStreamingDecoder.source d) j)
           = (Raise (StopIteration "No more files"),
              TextStreamingDecoder.source d').
Proof.
  intros d.
  assert (Hn : ∃ d',
             TextStreamingDecoder.next_fuel two_files 8 d
             = Some (Raise (StopIteration "No more files"), d'))
    by (eexists; vm_compute; reflexivity).
  destruct Hn as (d' & Hn). exists d'. split; [exact Hn|].
  exact (tsd_raises_only_source_exceptions two_files 8 d _ d' Hn).
Defined.

Lemma tsd_reset_beyond_end_witness :
  let d :=
    TextStreamingDecoder.init (MockSourceNode.init ["b.txt"; "a.txt"] ∅)
      "r" (Some "utf-8") ∅ in
  let h0 := mk_handle ("z" ++ newline) EOF in
  (two_files "b.txt" "r" (Some "utf-8") ∅ = Ok h0
   ∧ h_end h0 = EOF
   ∧ (length (handle_lines h0) < 3)%nat)
  ∧ ∃ d',
      TextStreamingDecoder.reset two_files d
        (Some (TextStreamingDecoder.mk_state
                 (MockSourceNode.mk_state (Some 1)) (Some "b.txt") (Some 3)
                 None))
      = (Raise (StopIteration EmptyString), d')
      ∧ TextStreamingDecoder._file_handle d'
        = Some (mk_handle EmptyString EOF)
      ∧ tsd_next_item two_files d'
        = Some (Dict "x" (Some {[ "file_path" := VStr "a.txt";
                                  "item_idx" := VInt 0 ]})).
Proof.
  intros d h0.
  assert (Hn : (length (handle_lines h0) < 3)%nat) by (vm_compute; lia).
  split; [by repeat split|].
  destruct (tsd_reset_beyond_end two_files d
              (MockSourceNode.mk_state (Some 1)) "b.txt" 3 None h0
              eq_refl eq_refl Hn)
    as (d' & Hr & Hh & _).
  exists d'. split; [exact Hr|]. split; [exact Hh|].
  vm_compute in Hr. injection Hr as <-. vm_compute. reflexivity.
Defined.

Lemma lister_decoder_chain_witness :
  binary_stream "r" (Some "utf-8") = false
  ∧ ∃ F k msg out,
      TextStreamingDecoder.drain data_files F k
        (TextStreamingDecoder.reset data_files
           (TextStreamingDecoder.init (lister_over fs_one ["*.txt"])
              "r" (Some "utf-8") ∅) None).2
      = Some (out, StopIteration msg)
      ∧ item_data <$> out = ["x"; "y"; "z"].
Proof.
  split; [reflexivity|].
  destruct (lister_decoder_chain data_files (lister_over fs_one ["*.txt"])
              "r" (Some "utf-8") ∅ eq_refl)
    as (F & k & msg & out & Hd & Hdata & _).
  exists F, k, msg, out. split; [exact Hd|].
  rewrite Hdata. vm_compute. reflexivity.
Defined.

Lemma lister_reader_chain_witness :
  let l := lister_over fs_one ["*.txt"] in
  let r := FileReader.mk (FileLister.reset l None) "r" (Some "utf-8") ∅ in
  Forall (λ path, ∃ content,
            FileReader.read_file data_files r path = Ok content)
    (lister_listing l)
  ∧ ∃ outs,
      yields (BaseNode0 := FileReader_node data_files) r outs
      ∧ Forall2 (λ path out,
                   FileReader.read_file data_files r path
                   = Ok (item_data out)
                   ∧ item_metadata out !! "file_path" = Some (VStr path)
                   ∧ item_metadata out !! "source" = Some (VStr "file")
                   ∧ item_metadata out !! "fs_protocol"
                     = Some (VStr "file"))
          ["data/a.txt"; "data/b.txt"] outs.
Proof.
  intros l r.
  assert (Hall : Forall (λ path, ∃ content,
                    FileReader.read_file data_files r path = Ok content)
                   (lister_listing l)).
  { change (lister_listing l) with ["data/a.txt"; "data/b.txt"].
    repeat constructor; eexists; reflexivity. }
  split; [exact Hall|].
  exact (lister_reader_chain data_files l "r" (Some "utf-8") ∅ Hall).
Defined.

(** ** Pulls and checkpoints *)

(** X22.  One pull per call.  Each call of the reader's [next] pulls
    exactly one item from the source, whether it returns a content item,
    passes on the end-of-sequence signal or raises because a file could
    not be read; nothing else of the reader changes.  After [k] calls
    the source is where [k] pulls lead. *)
Theorem reader_one_pull_per_call {Node Ckpt} `{!BaseNode Node Ckpt}
    (smart_open : opener) (r : FileReader.t Node) (k : nat) :
  run (BaseNode0 := FileReader_node smart_open) r k
  = FileReader.set_source r (run (FileReader.source r) k)
  ∧ FileReader.get_state
      (run (BaseNode0 := FileReader_node smart_open) r k)
    = FileReader.mk_state (Some (get_state (run (FileReader.source r) k))).
Proof.
  pose proof (reader_run smart_open r k) as Hrun.
  split; [exact Hrun|]. by rewrite Hrun.
Qed.

(** X23.  Round trip of a decoder checkpoint.  Over a source that gives
    back the checkpoint it was reset from, [get_state] after [reset]
    returns the checkpoint's source state, file and line count (0 when
    the checkpoint has none), and never a metadata entry; this holds
    also when [reset] raises. *)
Theorem tsd_checkpoint_round_trip {Node Ckpt} `{!BaseNode Node Ckpt}
    (smart_open : opener) (d : TextStreamingDecoder.t Node)
    (ck : TextStreamingDecoder.state Ckpt) :
  get_state (reset (TextStreamingDecoder.source d)
               (Some (TextStreamingDecoder.st_source ck)))
  = TextStreamingDecoder.st_source ck →
  TextStreamingDecoder.get_state
    (TextStreamingDecoder.reset smart_open d (Some ck)).2
  = TextStreamingDecoder.mk_state
      (TextStreamingDecoder.st_source ck)
      (TextStreamingDecoder.st_current_file ck)
      (Some (default 0 (TextStreamingDecoder.st_current_line ck)))
      None.
Proof.
  intros Hsrc. destruct d as [s m enc tp cf cl fh md].
  destruct ck as [cs cfile cline cmd]. simpl in Hsrc.
  unfold TextStreamingDecoder.reset, TextStreamingDecoder.get_state,
    TextStreamingDecoder.open_file.
  simpl. destruct cfile as [f|]; simpl; [|by rewrite Hsrc].
  destruct (smart_open f m enc tp) as [h|e]; simpl; [|by rewrite Hsrc].
  destruct (TextStreamingDecoder.skip_lines _ _); simpl; by rewrite Hsrc.
Qed.

Lemma tsd_checkpoint_round_trip_witness :
  let d :=
    TextStreamingDecoder.init (MockSourceNode.init ["a.txt"; "b.txt"] ∅)
      "r" (Some "utf-8") ∅ in
  let ck :=
    TextStreamingDecoder.mk_state (MockSourceNode.mk_state (Some 1))
      (Some "a.txt") None (Some {[ "source" := VStr "local" ]}) in
  get_state (reset (TextStreamingDecoder.source d)
               (Some (TextStreamingDecoder.st_source ck)))
  = TextStreamingDecoder.st_source ck
  ∧ TextStreamingDecoder.get_state
      (TextStreamingDecoder.reset two_files d (Some ck)).2
    = TextStreamingDecoder.mk_state (MockSourceNode.mk_state (Some 1))
        (Some "a.txt") (Some 0) None.
Proof.
  intros d ck.
  assert (Hsrc : get_state (reset (TextStreamingDecoder.source d)
                              (Some (TextStreamingDecoder.st_source ck)))
                 = TextStreamingDecoder.st_source ck) by reflexivity.
  split; [exact Hsrc|].
  exact (tsd_checkpoint_round_trip two_files d ck Hsrc).
Defined.
